(** * SceneManager: scene-graph clearing and camera framing

    A shallow embedding of [SceneManager.js] (the viewport class built on
    three.js) together with the properties of its scene-clearing and
    camera-framing methods.

    Conventions of the embedding.
    - JavaScript numbers are modelled by rationals ([Q]); equalities that
      come out of arithmetic are stated up to [Qeq].
    - Object identity (reference equality in JavaScript) is a natural number
      carried by every object, geometry, material and texture.
    - The scene graph is a rose tree of [Object3D] values.  The two fields
      that the bounding-box code writes behind the back of an object's
      owner live in stores of the manager's state: the cached
      [geometry.boundingBox], keyed by the geometry's identity, so that
      geometries shared by several meshes share their cache as they do in
      three.js; and the cached [object.matrix] and [object.matrixWorld],
      keyed by the object's identity.
    - Objects carry a position only; rotation and scale are those of a new
      object.  A matrix is therefore a translation, given by a vector.  The
      matrices are caches: [updateWorldMatrix] sets [matrix] to the
      object's position and [matrixWorld] to the parent's cached world
      matrix composed with it, and until then they are what they were (the
      identity for a new object).  The flags that tell the renderer what to
      recompute are not kept.
    - A method is a function from the manager's state to a [Completion]:
      it either returns normally or stops with an uncaught [TypeError]
      (a property read on [undefined]); both carry the state reached.
    - The operations of three.js that the methods call ([Object3D.add],
      [remove], [traverse], [Box3], [BufferGeometry.computeBoundingBox]) are
      written out next to them, by the effect they have on this state. *)

From Stdlib Require Import QArith Qminmax Lqa.
From stdpp Require Import gmap list.

(** ** Vectors and boxes (three.js [Vector3], [Box3]) *)

Record Vector3 := vec3 { vx : Q; vy : Q; vz : Q }.

Definition v3 (a b c : Z) : Vector3 := vec3 (inject_Z a) (inject_Z b) (inject_Z c).

Definition origin : Vector3 := v3 0 0 0.

(** Component-wise equality of numbers. *)
Definition v3eq (a b : Vector3) : Prop :=
  (vx a == vx b)%Q /\ (vy a == vy b)%Q /\ (vz a == vz b)%Q.

Definition v_add (a b : Vector3) : Vector3 :=
  vec3 (vx a + vx b)%Q (vy a + vy b)%Q (vz a + vz b)%Q.

Definition v_sub (a b : Vector3) : Vector3 :=
  vec3 (vx a - vx b)%Q (vy a - vy b)%Q (vz a - vz b)%Q.

Definition v_scale (a : Vector3) (k : Q) : Vector3 :=
  vec3 (vx a * k)%Q (vy a * k)%Q (vz a * k)%Q.

(** [Vector3.min] and [Vector3.max]: [Math.min] / [Math.max] per component. *)
Definition v_min (a b : Vector3) : Vector3 :=
  vec3 (Qmin (vx a) (vx b)) (Qmin (vy a) (vy b)) (Qmin (vz a) (vz b)).

Definition v_max (a b : Vector3) : Vector3 :=
  vec3 (Qmax (vx a) (vx b)) (Qmax (vy a) (vy b)) (Qmax (vz a) (vz b)).

(** A [Box3].  [new THREE.Box3()] is the empty box (min at plus infinity,
    max at minus infinity), the neutral element of [union]. *)
Inductive Box3 :=
| EmptyBox3
| Box3MinMax (bmin bmax : Vector3).

Definition Qltb (a b : Q) : bool := negb (Qle_bool b a).

(** [Box3.isEmpty]: some max component is below the min component. *)
Definition isEmpty (b : Box3) : bool :=
  match b with
  | EmptyBox3 => true
  | Box3MinMax mn mx =>
      Qltb (vx mx) (vx mn) || Qltb (vy mx) (vy mn) || Qltb (vz mx) (vz mn)
  end.

(** [Box3.expandByPoint]. *)
Definition expandByPoint (b : Box3) (p : Vector3) : Box3 :=
  match b with
  | EmptyBox3 => Box3MinMax p p
  | Box3MinMax mn mx => Box3MinMax (v_min mn p) (v_max mx p)
  end.

(** [Box3.setFromPoints]: start empty, expand by every point. *)
Definition setFromPoints (pts : list Vector3) : Box3 :=
  fold_left expandByPoint pts EmptyBox3.

(** [Box3.union]. *)
Definition union3 (a b : Box3) : Box3 :=
  match a, b with
  | EmptyBox3, _ => b
  | _, EmptyBox3 => a
  | Box3MinMax amn amx, Box3MinMax bmn bmx =>
      Box3MinMax (v_min amn bmn) (v_max amx bmx)
  end.

(** [Box3.applyMatrix4] for a world matrix that is a translation: an empty
    box is returned as it is, any other box is moved by the translation. *)
Definition applyTranslation (b : Box3) (w : Vector3) : Box3 :=
  match b with
  | EmptyBox3 => EmptyBox3
  | Box3MinMax mn mx =>
      if isEmpty b then b else Box3MinMax (v_add mn w) (v_add mx w)
  end.

(** [Box3.getCenter]: the origin for an empty box, the midpoint otherwise. *)
Definition getCenter (b : Box3) : Vector3 :=
  match b with
  | EmptyBox3 => origin
  | Box3MinMax mn mx =>
      if isEmpty b then origin else v_scale (v_add mn mx) (1 # 2)
  end.

(** [Box3.getSize]: zero for an empty box, max minus min otherwise. *)
Definition getSize (b : Box3) : Vector3 :=
  match b with
  | EmptyBox3 => origin
  | Box3MinMax mn mx =>
      if isEmpty b then origin else v_sub mx mn
  end.


(** ** Scene objects *)

(** The classes of three.js objects that the manager tells apart. *)
Inductive Object3DClass :=
| ClsObject3D
| ClsGroup
| ClsMesh
| ClsLine
| ClsGridHelper
| ClsAxesHelper
| ClsAmbientLight
| ClsDirectionalLight
| ClsPointLight.

(** [object.isMesh]. *)
Definition isMeshClass (c : Object3DClass) : bool :=
  match c with ClsMesh => true | _ => false end.

(** [object instanceof THREE.Light]. *)
Definition instanceofLight (c : Object3DClass) : bool :=
  match c with
  | ClsAmbientLight | ClsDirectionalLight | ClsPointLight => true
  | _ => false
  end.

(** [object instanceof THREE.GridHelper]. *)
Definition instanceofGridHelper (c : Object3DClass) : bool :=
  match c with ClsGridHelper => true | _ => false end.

(** [object instanceof THREE.AxesHelper]. *)
Definition instanceofAxesHelper (c : Object3DClass) : bool :=
  match c with ClsAxesHelper => true | _ => false end.

(** A [BufferGeometry]: its identity and its [position] attribute. *)
Record BufferGeometry := mkGeometry {
  geometryId : nat;
  positionAttribute : list Vector3
}.

(** A material and the texture ([material.map]) it may carry. *)
Record Material := mkMaterial {
  materialId : nat;
  mapTexture : option nat
}.

(** [object.material]: absent, one material, or an array of materials. *)
Inductive MaterialSlot :=
| NoMaterial
| OneMaterial (m : Material)
| MaterialArray (ms : list Material).

(** An object of the graph.  [geometry] is [None] where the property is
    absent ([undefined]), as on a group or a light; a mesh has one unless
    it was taken away.  (three.js never sets the property to [null].) *)
#[warnings="-register-all"]
Inductive Object3D := mkObject3D {
  objectId : nat;
  cls : Object3DClass;
  geometry : option BufferGeometry;
  material : MaterialSlot;
  position : Vector3;
  children : list Object3D
}.

(** [Object3D.traverse]: the object, then every child's traversal. *)
Fixpoint traverse (o : Object3D) : list Object3D :=
  match o with
  | mkObject3D _ _ _ _ _ ch => o :: flat_map traverse ch
  end.

(** The same traversal, pairing every object with its [parent] (by
    identity; [None] for a child of the scene). *)
Fixpoint traverseFrom (parent : option nat) (o : Object3D)
  : list (option nat * Object3D) :=
  match o with
  | mkObject3D n _ _ _ _ ch =>
      (parent, o) :: flat_map (traverseFrom (Some n)) ch
  end.

(** ** The manager's state *)

(** The cached transform matrices of an object, [object.matrix] and
    [object.matrixWorld]; translations both, each given by a vector. *)
Record Matrices := mkMatrices {
  matrix : Vector3;
  matrixWorld : Vector3
}.

Record Camera := mkCamera {
  cameraPosition : Vector3;   (* camera.position *)
  cameraLookAt : Vector3      (* the point last handed to camera.lookAt *)
}.

(** The orbit controls as the manager uses them: the [target] point, and the
    number of [update()] calls received. *)
Record OrbitControls := mkControls {
  target : Vector3;
  updates : nat
}.

Record Scene := mkScene {
  background : option N;
  sceneChildren : list Object3D
}.

(** What a [dispose()] call is made on. *)
Inductive Disposable :=
| GeometryHandle (g : nat)
| MaterialHandle (m : nat)
| TextureHandle (t : nat).

(** One run of the disposal callback of [clearScene]: the object it ran on
    and the [dispose()] calls it made, in order. *)
Record Release := mkRelease {
  releasedObject : nat;
  disposeCalls : list Disposable
}.

Record SceneManager := mkSceneManager {
  scene : option Scene;               (* this.scene; may be absent *)
  camera : Camera;                    (* this.camera *)
  controls : option OrbitControls;    (* this.controls *)
  rendererClears : nat;               (* calls of renderer.clear() *)
  boundingBoxes : gmap nat Box3;      (* geometry.boundingBox, by geometry *)
  disposals : list Release;           (* trace of disposal callbacks *)
  nextId : nat;                       (* next fresh identity *)
  objectMatrices : gmap nat Matrices  (* object.matrix and object.matrixWorld,
                                         by object *)
}.

Definition set_scene (s : SceneManager) (sc : option Scene) : SceneManager :=
  mkSceneManager sc (camera s) (controls s) (rendererClears s)
    (boundingBoxes s) (disposals s) (nextId s) (objectMatrices s).

Definition set_camera (s : SceneManager) (c : Camera) : SceneManager :=
  mkSceneManager (scene s) c (controls s) (rendererClears s)
    (boundingBoxes s) (disposals s) (nextId s) (objectMatrices s).

Definition set_controls (s : SceneManager) (c : option OrbitControls) : SceneManager :=
  mkSceneManager (scene s) (camera s) c (rendererClears s)
    (boundingBoxes s) (disposals s) (nextId s) (objectMatrices s).

Definition set_rendererClears (s : SceneManager) (n : nat) : SceneManager :=
  mkSceneManager (scene s) (camera s) (controls s) n
    (boundingBoxes s) (disposals s) (nextId s) (objectMatrices s).

Definition set_boundingBoxes (s : SceneManager) (m : gmap nat Box3) : SceneManager :=
  mkSceneManager (scene s) (camera s) (controls s) (rendererClears s)
    m (disposals s) (nextId s) (objectMatrices s).

Definition set_disposals (s : SceneManager) (d : list Release) : SceneManager :=
  mkSceneManager (scene s) (camera s) (controls s) (rendererClears s)
    (boundingBoxes s) d (nextId s) (objectMatrices s).

Definition set_nextId (s : SceneManager) (n : nat) : SceneManager :=
  mkSceneManager (scene s) (camera s) (controls s) (rendererClears s)
    (boundingBoxes s) (disposals s) n (objectMatrices s).

Definition set_objectMatrices (s : SceneManager) (m : gmap nat Matrices) : SceneManager :=
  mkSceneManager (scene s) (camera s) (controls s) (rendererClears s)
    (boundingBoxes s) (disposals s) (nextId s) m.

(** How a method call ends. *)
Inductive Completion :=
| Normal (s : SceneManager)
| TypeError (s : SceneManager).

Definition state_of (c : Completion) : SceneManager :=
  match c with Normal s | TypeError s => s end.

Definition andThen (c : Completion) (f : SceneManager -> Completion) : Completion :=
  match c with
  | Normal s => f s
  | TypeError s => TypeError s
  end.

Notation "c >>= f" := (andThen c f) (at level 50, left associativity).

(** ** three.js operations on the scene graph *)

(** Removal of the object with identity [i] from a list of children
    ([indexOf] then [splice]: the first match only). *)
Fixpoint removeChild (i : nat) (l : list Object3D) : list Object3D :=
  match l with
  | [] => []
  | o :: l' => if Nat.eqb (objectId o) i then l' else o :: removeChild i l'
  end.

(** [Object3D.remove(object)] on the scene. *)
Definition Object3D_remove (object : Object3D) (sc : Scene) : Scene :=
  mkScene (background sc) (removeChild (objectId object) (sceneChildren sc)).

(** Detaching the object with identity [i] from wherever it hangs in a
    forest: the effect, on this forest, of [object.removeFromParent()]. *)
Fixpoint detach (i : nat) (o : Object3D) : Object3D :=
  match o with
  | mkObject3D n c g m p ch =>
      mkObject3D n c g m p
        ((fix detachList (l : list Object3D) : list Object3D :=
            match l with
            | [] => []
            | x :: l' =>
                if Nat.eqb (objectId x) i then detachList l'
                else detach i x :: detachList l'
            end) ch)
  end.

Fixpoint detachAll (i : nat) (l : list Object3D) : list Object3D :=
  match l with
  | [] => []
  | x :: l' =>
      if Nat.eqb (objectId x) i then detachAll i l'
      else detach i x :: detachAll i l'
  end.

(** [Object3D.add(object)] on the scene, for an object that may already hang
    somewhere in it: the object leaves its parent and is pushed last. *)
Definition Object3D_add (object : Object3D) (sc : Scene) : Scene :=
  mkScene (background sc)
    (detachAll (objectId object) (sceneChildren sc) ++ [object]).

(** [Object3D.add(object)] for an object just constructed (no parent). *)
Definition Object3D_add_new (object : Object3D) (sc : Scene) : Scene :=
  mkScene (background sc) (sceneChildren sc ++ [object]).

(** *** Constructors of the permanent scene furniture *)

(** Vertices of [new THREE.GridHelper(size, divisions)]: for each of the
    [divisions + 1] grid lines, its two end points along each axis. *)
Definition gridVertices (size : Q) (divisions : nat) : list Vector3 :=
  let step := (size / inject_Z (Z.of_nat divisions))%Q in
  let half := (size / 2)%Q in
  flat_map (fun i =>
      let k := (- half + inject_Z (Z.of_nat i) * step)%Q in
      [vec3 (- half) 0 k; vec3 half 0 k; vec3 k 0 (- half); vec3 k 0 half])
    (seq 0 (S divisions)).

(** Vertices of [new THREE.AxesHelper(size)]. *)
Definition axesVertices (size : Q) : list Vector3 :=
  [vec3 0 0 0; vec3 size 0 0; vec3 0 0 0; vec3 0 size 0;
   vec3 0 0 0; vec3 0 0 size].

(** [new THREE.GridHelper(20, 20, 0x888888, 0xcccccc)], identities from [n]. *)
Definition newGridHelper (n : nat) : Object3D :=
  mkObject3D n ClsGridHelper
    (Some (mkGeometry (n + 1) (gridVertices 20 20)))
    (OneMaterial (mkMaterial (n + 2) None)) origin [].

(** [new THREE.AxesHelper(0)], identities from [n]. *)
Definition newAxesHelper (n : nat) : Object3D :=
  mkObject3D n ClsAxesHelper
    (Some (mkGeometry (n + 1) (axesVertices 0)))
    (OneMaterial (mkMaterial (n + 2) None)) origin [].

(** [new THREE.AmbientLight(0xffffff, 0.5)]. *)
Definition newAmbientLight (n : nat) : Object3D :=
  mkObject3D n ClsAmbientLight None NoMaterial origin [].

(** [new THREE.DirectionalLight(0xffffff, 0.8)] placed at (10, 20, 15). *)
Definition newDirectionalLight (n : nat) : Object3D :=
  mkObject3D n ClsDirectionalLight None NoMaterial (v3 10 20 15) [].

(** [0xf0f0f0] *)
Definition defaultBackground : N := 15790320.

(** ** The methods of [SceneManager] *)

(** [this.scene.add(object)] for a freshly constructed object; a
    [TypeError] when [this.scene] is absent. *)
Definition sceneAddNew (object : Object3D) (s : SceneManager) : Completion :=
  match scene s with
  | None => TypeError s
  | Some sc => Normal (set_scene s (Some (Object3D_add_new object sc)))
  end.

Definition initLights (s : SceneManager) : Completion :=
  let ambientLight := newAmbientLight (nextId s) in
  sceneAddNew ambientLight (set_nextId s (nextId s + 1)) >>= fun s =>
  let directionalLight := newDirectionalLight (nextId s) in
  sceneAddNew directionalLight (set_nextId s (nextId s + 1)).

Definition initSceneElements (s : SceneManager) : Completion :=
  let gridHelper := newGridHelper (nextId s) in
  sceneAddNew gridHelper (set_nextId s (nextId s + 3)) >>= fun s =>
  let axesHelper := newAxesHelper (nextId s) in
  sceneAddNew axesHelper (set_nextId s (nextId s + 3)) >>= initLights.

(** [if (material.map) material.map.dispose(); material.dispose()] *)
Definition disposeMaterial (m : Material) : list Disposable :=
  match mapTexture m with
  | Some t => [TextureHandle t]
  | None => []
  end ++ [MaterialHandle (materialId m)].

(** The [dispose()] calls of the removal callback on one object. *)
Definition disposeOf (object : Object3D) : list Disposable :=
  match geometry object with
  | Some g => [GeometryHandle (geometryId g)]
  | None => []
  end ++
  match material object with
  | NoMaterial => []
  | MaterialArray ms => flat_map disposeMaterial ms
  | OneMaterial m => disposeMaterial m
  end.

(** The test that keeps an object through [clearScene]. *)
Definition isPreserved (object : Object3D) : bool :=
  instanceofLight (cls object)
  || instanceofGridHelper (cls object)
  || instanceofAxesHelper (cls object).

(** The removal callback: dispose, then [this.scene.remove(object)].  It
    works on the scene and on the disposal trace. *)
Definition disposeAndRemove (acc : Scene * list Release) (object : Object3D)
  : Scene * list Release :=
  (Object3D_remove object acc.1,
   acc.2 ++ [mkRelease (objectId object) (disposeOf object)]).

(** [clearScene], the second definition in the class body (the one in
    force: a later method of the same name replaces the earlier one). *)
Definition clearScene (s : SceneManager) : Completion :=
  match scene s with
  | None =>
      initSceneElements
        (set_scene s (Some (mkScene (Some defaultBackground) [])))
  | Some sc =>
      let '(lightsAndHelpers, objectsToRemove) :=
        List.partition isPreserved (sceneChildren sc) in
      let '(sc', trace) :=
        fold_left disposeAndRemove objectsToRemove (sc, disposals s) in
      let s1 := set_disposals (set_scene s (Some sc')) trace in
      if Nat.eqb (length lightsAndHelpers) 0
      then initSceneElements s1
      else Normal s1
  end.

Definition camera_position_set (p : Vector3) (s : SceneManager) : SceneManager :=
  set_camera s (mkCamera p (cameraLookAt (camera s))).

Definition camera_lookAt (p : Vector3) (s : SceneManager) : SceneManager :=
  set_camera s (mkCamera (cameraPosition (camera s)) p).

(** [this.controls.update()], for the controls that [initControls]
    installs.  [OrbitControls.update()] takes the offset of the camera from
    [target], passes it through spherical coordinates (where the damping,
    the distance limits and the polar limit of [initControls] apply), puts
    the camera at [target] plus that offset and ends with
    [camera.lookAt(target)].  The look-at point is therefore the target
    after every call.  The passage through spherical coordinates is
    floating-point trigonometry; it is not carried out here, and the
    position is the one handed to [update()], which is what the passage
    returns, up to rounding, for a camera within the limits (at a distance
    between 1 and 50 from the target and not below it).  Each call is
    counted.  Without controls the call is a [TypeError]. *)
Definition controls_update (s : SceneManager) : Completion :=
  match controls s with
  | None => TypeError s
  | Some c =>
      Normal
        (set_controls (camera_lookAt (target c) s)
           (Some (mkControls (target c) (S (updates c)))))
  end.

(** [this.controls.target.copy(p)] / [this.controls.target.set(...)] *)
Definition controls_target_set (p : Vector3) (s : SceneManager) : Completion :=
  match controls s with
  | None => TypeError s
  | Some c => Normal (set_controls s (Some (mkControls p (updates c))))
  end.

Definition renderer_clear (s : SceneManager) : Completion :=
  Normal (set_rendererClears s (S (rendererClears s))).

Definition setTopView (s : SceneManager) : Completion :=
  controls_update (camera_lookAt (v3 0 0 0) (camera_position_set (v3 0 20 0) s)).

Definition setPerspectiveView (s : SceneManager) : Completion :=
  controls_update (camera_lookAt (v3 0 0 0) (camera_position_set (v3 10 10 10) s)).

Definition resetCamera (s : SceneManager) : Completion :=
  setPerspectiveView s.

Definition reset (s : SceneManager) : Completion :=
  clearScene s >>= resetCamera >>= controls_update >>= renderer_clear.

Definition addToScene (object : Object3D) (s : SceneManager) : Completion :=
  match scene s with
  | None => TypeError s
  | Some sc => Normal (set_scene s (Some (Object3D_add object sc)))
  end.

(** *** Bounding boxes of objects *)

(** The bounding box of a geometry as [Box3.expandByObject] obtains it: the
    cached [geometry.boundingBox], computed and stored first when it is
    [null]. *)
Definition cachedBoundingBox (cache : gmap nat Box3) (g : BufferGeometry)
  : gmap nat Box3 * Box3 :=
  match cache !! geometryId g with
  | Some b => (cache, b)
  | None =>
      let b := setFromPoints (positionAttribute g) in
      (<[geometryId g := b]> cache, b)
  end.

(** [parent.matrixWorld] as [updateWorldMatrix] reads it: the cached world
    matrix of the parent; the identity for a parent whose matrix was never
    refreshed, and for the scene, which this class never moves. *)
Definition parentMatrixWorld (matrices : gmap nat Matrices) (parent : option nat)
  : Vector3 :=
  match parent with
  | None => origin
  | Some i =>
      match matrices !! i with
      | Some m => matrixWorld m
      | None => origin
      end
  end.

(** [box.expandByObject(object)].  [object.updateWorldMatrix(false, false)]
    comes first: the object's matrix becomes its position, its world matrix
    becomes [parentWorld], the cached world matrix of its parent, composed
    with it, and both are stored.  Then, if the object has a geometry ([geometry !== undefined]),
    the geometry's box moved by that matrix is united into [box].  Then
    the children, recursively, each reading the world matrix its parent was
    just given. *)
Fixpoint expandByObject (cache : gmap nat Box3) (matrices : gmap nat Matrices)
    (box : Box3) (parentWorld : Vector3) (object : Object3D) {struct object}
  : gmap nat Box3 * gmap nat Matrices * Box3 :=
  match object with
  | mkObject3D n _ g _ p ch =>
      let world := v_add parentWorld p in
      let matrices1 := <[n := mkMatrices p world]> matrices in
      let acc :=
        match g with
        | None => (cache, matrices1, box)
        | Some geo =>
            let '(cache1, b) := cachedBoundingBox cache geo in
            (cache1, matrices1, union3 box (applyTranslation b world))
        end in
      fold_left (fun a child => expandByObject a.1.1 a.1.2 a.2 world child) ch acc
  end.

(** The scene's own traversal: the scene object itself is visited first and
    is no mesh, so the callbacks see its descendants. *)
Definition sceneTraverse (sc : Scene) : list (option nat * Object3D) :=
  flat_map (traverseFrom None) (sceneChildren sc).

(** The filter of [focusOnModel]. *)
Definition focusFilter (object : Object3D) : bool :=
  isMeshClass (cls object)
  && negb (instanceofGridHelper (cls object))
  && negb (instanceofAxesHelper (cls object)).

(** The filter of [centerModel]. *)
Definition centerFilter (object : Object3D) : bool :=
  isMeshClass (cls object)
  && negb (instanceofGridHelper (cls object))
  && negb (instanceofAxesHelper (cls object))
  && negb (instanceofLight (cls object)).

(** The loop of [focusOnModel] over the collected objects:
    [object.geometry.computeBoundingBox()] (a [TypeError] without a
    geometry, reported as [None]), [new Box3().setFromObject(object)],
    [boundingBox.union(objectBox)]. *)
Fixpoint focusBounds (cache : gmap nat Box3) (matrices : gmap nat Matrices)
    (boundingBox : Box3) (objects : list (option nat * Object3D))
  : gmap nat Box3 * gmap nat Matrices * option Box3 :=
  match objects with
  | [] => (cache, matrices, Some boundingBox)
  | (parent, object) :: rest =>
      match geometry object with
      | None => (cache, matrices, None)
      | Some g =>
          let cache1 :=
            <[geometryId g := setFromPoints (positionAttribute g)]> cache in
          let '(cache2, matrices2, objectBox) :=
            expandByObject cache1 matrices EmptyBox3
              (parentMatrixWorld matrices parent) object in
          focusBounds cache2 matrices2 (union3 boundingBox objectBox) rest
      end
  end.

(** The first traversal of [centerModel]:
    [boundingBox.expandByObject(object)] for every object that passes. *)
Definition centerBounds (cache : gmap nat Box3) (matrices : gmap nat Matrices)
    (objects : list (option nat * Object3D))
  : gmap nat Box3 * gmap nat Matrices * Box3 :=
  fold_left
    (fun a wo =>
       expandByObject a.1.1 a.1.2 a.2 (parentMatrixWorld a.1.2 wo.1) wo.2)
    objects (cache, matrices, EmptyBox3).

(** The two stores as a bounds computation leaves them. *)
Definition set_cached (s : SceneManager) (cache : gmap nat Box3)
    (matrices : gmap nat Matrices) : SceneManager :=
  set_objectMatrices (set_boundingBoxes s cache) matrices.

Definition focusOnModel (s : SceneManager) : Completion :=
  match scene s with
  | None => TypeError s
  | Some sc =>
      let objects := List.filter (fun wo => focusFilter wo.2) (sceneTraverse sc) in
      if Nat.eqb (length objects) 0 then Normal s
      else
        match focusBounds (boundingBoxes s) (objectMatrices s) EmptyBox3 objects with
        | (cache, matrices, None) => TypeError (set_cached s cache matrices)
        | (cache, matrices, Some boundingBox) =>
            let center := getCenter boundingBox in
            let size := getSize boundingBox in
            let maxDim := Qmax (Qmax (vx size) (vy size)) (vz size) in
            let distance := (maxDim * 2)%Q in
            let s1 := set_cached s cache matrices in
            let s2 :=
              camera_position_set
                (vec3 (vx center + distance) (vy center + distance)
                      (vz center + distance))%Q s1 in
            let s3 := camera_lookAt center s2 in
            controls_target_set center s3 >>= controls_update
        end
  end.

(** The second traversal of [centerModel]: every object that passes the
    filter has [center.x] taken off its [position.x] and [center.z] off its
    [position.z]. *)
Fixpoint recenter (center : Vector3) (o : Object3D) : Object3D :=
  match o with
  | mkObject3D n c g m p ch =>
      mkObject3D n c g m
        (if centerFilter o
         then vec3 (vx p - vx center)%Q (vy p) (vz p - vz center)%Q
         else p)
        (List.map (recenter center) ch)
  end.

Definition centerModel (s : SceneManager) : Completion :=
  match scene s with
  | None => Normal s
  | Some sc =>
      let objects := List.filter (fun wo => centerFilter wo.2) (sceneTraverse sc) in
      let '(cache, matrices, boundingBox) :=
        centerBounds (boundingBoxes s) (objectMatrices s) objects in
      let objectsFound := negb (Nat.eqb (length objects) 0) in
      let s1 := set_cached s cache matrices in
      if negb objectsFound then Normal s1
      else
        let center := getCenter boundingBox in
        let s2 :=
          set_scene s1
            (Some (mkScene (background sc)
                     (List.map (recenter center) (sceneChildren sc)))) in
        match controls s2 with
        | None => Normal s2
        | Some _ => controls_target_set (v3 0 0 0) s2 >>= controls_update
        end
  end.

(** *** The constructor *)

Definition initScene (s : SceneManager) : Completion :=
  let s1 := set_scene s (Some (mkScene (Some defaultBackground) [])) in
  let gridHelper := newGridHelper (nextId s1) in
  sceneAddNew gridHelper (set_nextId s1 (nextId s1 + 3)) >>= fun s =>
  let axesHelper := newAxesHelper (nextId s) in
  sceneAddNew axesHelper (set_nextId s (nextId s + 3)).

Definition initCamera (s : SceneManager) : Completion :=
  Normal (camera_lookAt (v3 50 0 0) (camera_position_set (v3 50 50 50) s)).

(** [new OrbitControls(camera, domElement)]: the target starts at the
    origin, and the constructor of the controls ends with an [update()] of
    its own, which aims the camera at it.  [updates] counts the calls that
    the methods of the manager make. *)
Definition initControls (s : SceneManager) : Completion :=
  Normal (set_controls (camera_lookAt origin s) (Some (mkControls origin 0))).

(** The state before the constructor has run: no scene, no controls, a
    camera as [new THREE.PerspectiveCamera] leaves it (at the origin,
    looking down the negative z axis). *)
Definition unconstructed : SceneManager :=
  mkSceneManager None (mkCamera origin (v3 0 0 (-1))) None 0 ∅ [] 0 ∅.

Definition constructor : Completion :=
  initScene unconstructed >>= initCamera >>= initLights >>= initControls
    >>= setPerspectiveView.

(** ** Vocabulary of the statements *)

(** The permanent furniture that [initSceneElements] constructs. *)
Definition defaultFurniture (n : nat) : list Object3D :=
  [newGridHelper n; newAxesHelper (n + 3);
   newAmbientLight (n + 6); newDirectionalLight (n + 7)].

(** The trace entry of the removal callback on one object. *)
Definition releaseOf (o : Object3D) : Release :=
  mkRelease (objectId o) (disposeOf o).

(** The children that [clearScene] keeps, and those it removes. *)
Definition keptChildren (sc : Scene) : list Object3D :=
  List.filter isPreserved (sceneChildren sc).

Definition removedChildren (sc : Scene) : list Object3D :=
  List.filter (fun o => negb (isPreserved o)) (sceneChildren sc).

(** Children with pairwise distinct identities: what [Object3D.add] keeps
    true of every child list. *)
Definition distinctChildren (sc : Scene) : Prop :=
  List.NoDup (List.map objectId (sceneChildren sc)).

(** The state after the removal loop. *)
Definition swept (s : SceneManager) (sc : Scene) : SceneManager :=
  set_disposals
    (set_scene s (Some (mkScene (background sc) (keptChildren sc))))
    (disposals s ++ List.map releaseOf (removedChildren sc)).

(** Sequences of [addToScene] and [clearScene] calls; a call that stops
    with a [TypeError] ends the run. *)
Inductive Operation :=
| OpAddToScene (object : Object3D)
| OpClearContent.

Definition perform (op : Operation) (s : SceneManager) : Completion :=
  match op with
  | OpAddToScene object => addToScene object s
  | OpClearContent => clearScene s
  end.

Fixpoint performAll (ops : list Operation) (s : SceneManager) : Completion :=
  match ops with
  | [] => Normal s
  | op :: rest => perform op s >>= performAll rest
  end.

(** The handles an object owns: its geometry, its material or materials,
    and the texture of each material. *)
Definition hasMaterial (o : Object3D) (m : Material) : Prop :=
  match material o with
  | NoMaterial => False
  | OneMaterial m' => m' = m
  | MaterialArray ms => In m ms
  end.

Inductive owns (o : Object3D) : Disposable -> Prop :=
| owns_geometry g :
    geometry o = Some g -> owns o (GeometryHandle (geometryId g))
| owns_material m :
    hasMaterial o m -> owns o (MaterialHandle (materialId m))
| owns_texture m t :
    hasMaterial o m -> mapTexture m = Some t -> owns o (TextureHandle t).

(** The trace entries added between two states. *)
Definition releasesSince (before after : SceneManager) : list Release :=
  drop (length (disposals before)) (disposals after).

(** Every object of the graph, and the objects below a given one. *)
Definition sceneObjects (sc : Scene) : list Object3D :=
  flat_map traverse (sceneChildren sc).

Definition descendants (o : Object3D) : list Object3D :=
  flat_map traverse (children o).

(** Identities are distinct across the whole graph. *)
Definition distinctObjects (sc : Scene) : Prop :=
  List.NoDup (List.map objectId (sceneObjects sc)).

(** The claim of C1 as it is worded, read over every node of the graph:
    [clearScene] returns normally; every permanent object of the graph is
    in the graph afterwards, no content object of the graph is, and every
    content object of the graph has had its disposal run. *)
Definition clearContentSweepsGraph (s : SceneManager) : Prop :=
  forall sc,
    scene s = Some sc ->
    exists s' sc',
      clearScene s = Normal s' /\ scene s' = Some sc'
      /\ (forall o, In o (sceneObjects sc) -> isPreserved o = true ->
            In o (sceneObjects sc'))
      /\ (forall o, In o (sceneObjects sc) -> isPreserved o = false ->
            ~ In o (sceneObjects sc'))
      /\ (forall o, In o (sceneObjects sc) -> isPreserved o = false ->
            In (releaseOf o) (releasesSince s s')).

(** The claim of C10 as it is worded: a content object below a child of the
    root is not disposed of and is still in the graph after [clearScene]. *)
Definition nestedContentRemains (s : SceneManager) : Prop :=
  forall sc p n,
    scene s = Some sc ->
    In p (sceneChildren sc) -> In n (descendants p) -> isPreserved n = false ->
    exists sc',
      scene (state_of (clearScene s)) = Some sc'
      /\ In n (sceneObjects sc')
      /\ ~ In (objectId n)
           (List.map releasedObject (releasesSince s (state_of (clearScene s)))).

(** The agreement that C2 asks for: the controls target is the point the
    camera looks at. *)
Definition targetFollowsLookAt (s : SceneManager) : Prop :=
  exists c, controls s = Some c /\ v3eq (target c) (cameraLookAt (camera s)).

(** Camera and controls are in [s'] as they are in [s]. *)
Definition poseKept (s s' : SceneManager) : Prop :=
  camera s' = camera s /\ controls s' = controls s.




(** The geometries of a list of objects. *)
Definition geometriesOf (l : list Object3D) : list BufferGeometry :=
  flat_map (fun o => match geometry o with Some g => [g] | None => [] end) l.

(** The objects that a bounds computation visits: the objects handed to
    [expandByObject] and everything below them. *)
Definition visited (objects : list (option nat * Object3D)) : list Object3D :=
  flat_map (fun wo => traverse wo.2) objects.

(** The objects that [focusOnModel] collects, and those that pass the
    filter of [centerModel], each with its parent. *)
Definition focusObjects (sc : Scene) : list (option nat * Object3D) :=
  List.filter (fun wo => focusFilter wo.2) (sceneTraverse sc).

Definition centerObjects (sc : Scene) : list (option nat * Object3D) :=
  List.filter (fun wo => centerFilter wo.2) (sceneTraverse sc).

(** [cache'] differs from [cache] only by entries that hold the bounding
    box computed from the vertices of one of the geometries [geos]. *)
Definition refreshedFrom (geos : list BufferGeometry)
    (cache cache' : gmap nat Box3) : Prop :=
  forall i,
    cache' !! i = cache !! i
    \/ exists g, In g geos /\ geometryId g = i
                /\ cache' !! i = Some (setFromPoints (positionAttribute g)).

(** The same, with no entry of [cache] overwritten: the new entries are on
    geometries that had none. *)
Definition filledFrom (geos : list BufferGeometry)
    (cache cache' : gmap nat Box3) : Prop :=
  forall i,
    cache' !! i = cache !! i
    \/ (cache !! i = None
        /\ exists g, In g geos /\ geometryId g = i
                     /\ cache' !! i = Some (setFromPoints (positionAttribute g))).

(** Every geometry of the objects [l] has a cached box. *)
Definition allCached (l : list Object3D) (cache : gmap nat Box3) : Prop :=
  forall g, In g (geometriesOf l) -> is_Some (cache !! geometryId g).

(** Every geometry of the objects [l] has, as its cached box, the box
    computed from the vertices of a geometry of [l] of that identity. *)
Definition recomputed (l : list Object3D) (cache : gmap nat Box3) : Prop :=
  forall g, In g (geometriesOf l) ->
    exists g', In g' (geometriesOf l) /\ geometryId g' = geometryId g
               /\ cache !! geometryId g
                  = Some (setFromPoints (positionAttribute g')).

(** [matrices'] differs from [matrices] at the objects [l] only, and gives
    each of them its position as its matrix and the world matrix of its
    parent composed with its position as its world matrix. *)
Definition worldsRefreshed (sc : Scene) (l : list Object3D)
    (matrices matrices' : gmap nat Matrices) : Prop :=
  (forall i, ~ In i (List.map objectId l) -> matrices' !! i = matrices !! i)
  /\ (forall parent o,
        In (parent, o) (sceneTraverse sc) -> In o l ->
        matrices' !! objectId o
        = Some (mkMatrices (position o)
                  (v_add (parentMatrixWorld matrices' parent) (position o)))).

(** The matrices that [expandByObject] leaves; they depend on no box. *)
Fixpoint expandedWorlds (matrices : gmap nat Matrices) (parentWorld : Vector3)
    (object : Object3D) {struct object} : gmap nat Matrices :=
  match object with
  | mkObject3D n _ _ _ p ch =>
      fold_left (fun m child => expandedWorlds m (v_add parentWorld p) child)
        ch (<[n := mkMatrices p (v_add parentWorld p)]> matrices)
  end.

(** The matrices after one [expandByObject] per object of a list. *)
Definition refreshedWorlds (matrices : gmap nat Matrices)
    (objects : list (option nat * Object3D)) : gmap nat Matrices :=
  fold_left
    (fun m wo => expandedWorlds m (parentMatrixWorld m wo.1) wo.2)
    objects matrices.

(** The claim of C5 as it is worded, for [focusOnModel]: the scene (graph,
    positions, vertex data), the cached bounding box of every geometry and
    the world matrix of every object are after the call what they were
    before it. *)
Definition boundsQueryReadOnly (s : SceneManager) : Prop :=
  scene (state_of (focusOnModel s)) = scene s
  /\ boundingBoxes (state_of (focusOnModel s)) = boundingBoxes s
  /\ forall i,
       parentMatrixWorld (objectMatrices (state_of (focusOnModel s))) (Some i)
       = parentMatrixWorld (objectMatrices s) (Some i).

(** ** Example scenes *)

(** The viewport as the constructor leaves it. *)
Definition viewport : SceneManager := Eval vm_compute in state_of constructor.

(** A cube of side 2 around its own origin. *)
Definition cubeGeometry (g : nat) : BufferGeometry :=
  mkGeometry g
    [v3 (-1) (-1) (-1); v3 1 (-1) (-1); v3 (-1) 1 (-1); v3 1 1 (-1);
     v3 (-1) (-1) 1; v3 1 (-1) 1; v3 (-1) 1 1; v3 1 1 1].

(** A textured cube mesh placed at [p]; identities [n] to [n + 3]. *)
Definition cubeMesh (n : nat) (p : Vector3) : Object3D :=
  mkObject3D n ClsMesh (Some (cubeGeometry (n + 1)))
    (OneMaterial (mkMaterial (n + 2) (Some (n + 3)))) p [].

(** A group, as a loader returns a model. *)
Definition groupOf (n : nat) (p : Vector3) (ch : list Object3D) : Object3D :=
  mkObject3D n ClsGroup None NoMaterial p ch.

(** The viewport after a model made of a group around one mesh was added. *)
Definition viewportWithModel : SceneManager :=
  state_of (addToScene (groupOf 100 origin [cubeMesh 101 origin]) viewport).

(** The viewport after a model was added that brings its own light: a
    group around one mesh and one point light. *)
Definition viewportWithLitModel : SceneManager :=
  state_of
    (addToScene
       (groupOf 100 origin
          [cubeMesh 101 origin;
           mkObject3D 105 ClsPointLight None NoMaterial (v3 0 5 0) []])
       viewport).

Definition viewportScene : Scene := default (mkScene None []) (scene viewport).

Definition modelScene : Scene := default (mkScene None []) (scene viewportWithModel).

(** A run: a cube is added, the scene is cleared, a model and a point light
    are added. *)
Definition exampleRun : list Operation :=
  [OpAddToScene (cubeMesh 200 (v3 5 3 (-2)));
   OpClearContent;
   OpAddToScene (groupOf 100 origin [cubeMesh 101 origin]);
   OpAddToScene (mkObject3D 300 ClsPointLight None NoMaterial (v3 0 5 0) [])].

(** The viewport after a cube centred at (5, 3, -2) was added and framed. *)
Definition viewportFramed : SceneManager :=
  state_of (addToScene (cubeMesh 200 (v3 5 3 (-2))) viewport >>= focusOnModel).

(** The viewport with one cube around the origin. *)
Definition viewportWithCube : SceneManager :=
  state_of (addToScene (cubeMesh 200 origin) viewport).


(** The viewport with one cube centred at (5, 3, -2). *)
Definition viewportOffCentre : SceneManager :=
  state_of (addToScene (cubeMesh 200 (v3 5 3 (-2))) viewport).

Definition offCentreScene : Scene :=
  default (mkScene None []) (scene viewportOffCentre).

(** Membership in a list given by its elements. *)
Ltac pick_member := repeat first [left; reflexivity | right].

(** Distinctness of a list of identities given by its elements. *)
Ltac distinct_ids :=
  vm_compute; repeat (constructor; [simpl; lia|]); constructor.

(** ** Further vocabulary *)

(** A viewport whose lights are gone: a grid helper and a cube are all the
    scene holds. *)
Definition viewportWithoutLights : SceneManager :=
  set_scene viewport
    (Some (mkScene (Some defaultBackground)
             [newGridHelper 0; cubeMesh 200 origin])).

Definition sceneWithoutLights : Scene :=
  default (mkScene None []) (scene viewportWithoutLights).

(** A mesh that was created without a geometry. *)
Definition bareMesh (n : nat) (p : Vector3) : Object3D :=
  mkObject3D n ClsMesh None NoMaterial p [].

(** The viewport after a cube and a mesh without geometry were added. *)
Definition viewportWithBareMesh : SceneManager :=
  state_of (addToScene (cubeMesh 200 origin) viewport
            >>= addToScene (bareMesh 210 (v3 1 0 0))).

Definition bareMeshScene : Scene :=
  default (mkScene None []) (scene viewportWithBareMesh).

(** * Properties *)

(** ** Generalities *)

Lemma set_cached_same (s : SceneManager) :
  set_cached s (boundingBoxes s) (objectMatrices s) = s.
Proof. by destruct s. Qed.

Lemma initSceneElements_present (s : SceneManager) (sc : Scene) :
  scene s = Some sc ->
  initSceneElements s =
    Normal (set_nextId
              (set_scene s
                 (Some (mkScene (background sc)
                          (sceneChildren sc ++ defaultFurniture (nextId s)))))
              (nextId s + 8)).
Proof.
  intros Hsc. destruct s as [sc0 cam ctl rc bb dl n mu]; simpl in Hsc; subst sc0.
  unfold initSceneElements, initLights, sceneAddNew, set_scene, set_nextId,
    Object3D_add_new, defaultFurniture; simpl.
  repeat rewrite <- app_assoc; simpl.
  replace (n + 3 + 3) with (n + 6) by lia.
  replace (n + 6 + 1) with (n + 7) by lia.
  replace (n + 7 + 1) with (n + 8) by lia.
  reflexivity.
Qed.


(** The two framing filters select the same objects: no light is a mesh. *)
Lemma centerFilter_focusFilter (o : Object3D) : centerFilter o = focusFilter o.
Proof. unfold centerFilter, focusFilter. destruct (cls o); reflexivity. Qed.


(** ** Preset views *)

(** What [controls.update()] leaves: the camera aimed at the target. *)
Lemma controls_update_state (s : SceneManager) (c : OrbitControls) :
  controls s = Some c ->
  controls_update s =
    Normal (set_controls (camera_lookAt (target c) s)
              (Some (mkControls (target c) (S (updates c))))).
Proof. intros Hc. unfold controls_update. by rewrite Hc. Qed.

Lemma setTopView_state (s : SceneManager) (c : OrbitControls) :
  controls s = Some c ->
  setTopView s =
    Normal (set_controls (set_camera s (mkCamera (v3 0 20 0) (target c)))
              (Some (mkControls (target c) (S (updates c))))).
Proof.
  intros Hc. unfold setTopView. rewrite controls_update_state with (c := c).
  - by destruct s.
  - exact Hc.
Qed.

Lemma setPerspectiveView_state (s : SceneManager) (c : OrbitControls) :
  controls s = Some c ->
  setPerspectiveView s =
    Normal (set_controls (set_camera s (mkCamera (v3 10 10 10) (target c)))
              (Some (mkControls (target c) (S (updates c))))).
Proof.
  intros Hc. unfold setPerspectiveView. rewrite controls_update_state with (c := c).
  - by destruct s.
  - exact Hc.
Qed.

Lemma setPerspectiveView_raises (s : SceneManager) :
  controls s = None ->
  setPerspectiveView s =
    TypeError (set_camera s (mkCamera (v3 10 10 10) (v3 0 0 0))).
Proof.
  intros Hc. unfold setPerspectiveView, controls_update. simpl. rewrite Hc.
  by destruct s.
Qed.

(** C9.  The viewport in which a cube centred at (5, 3, -2) was framed has
    its controls target at (5, 3, -2).  From there [setTopView] and
    [setPerspectiveView] return normally with the camera looking at
    (5, 3, -2), not at (0, 0, 0): [camera.lookAt(0, 0, 0)] is undone by
    [controls.update()], which aims the camera at the controls target, and
    the presets never write that target.  From the viewport as constructed
    the same calls end with look-at (0, 0, 0): the pose depends on the
    state before. *)
Theorem preset_views_look_at_the_controls_target :
  (exists s',
     setTopView viewportFramed = Normal s'
     /\ v3eq (cameraLookAt (camera s')) (v3 5 3 (-2))
     /\ ~ v3eq (cameraLookAt (camera s')) (v3 0 0 0))
  /\ (exists s',
        setPerspectiveView viewportFramed = Normal s'
        /\ v3eq (cameraLookAt (camera s')) (v3 5 3 (-2))
        /\ ~ v3eq (cameraLookAt (camera s')) (v3 0 0 0))
  /\ (exists s',
        setTopView viewport = Normal s'
        /\ v3eq (cameraLookAt (camera s')) (v3 0 0 0))
  /\ (exists s',
        setPerspectiveView viewport = Normal s'
        /\ v3eq (cameraLookAt (camera s')) (v3 0 0 0)).
Proof.
  repeat split; eexists; (split; [vm_compute; reflexivity|]);
    repeat split; try reflexivity;
    intros (H & _); vm_compute in H; discriminate H.
Qed.

(** ** Clearing the scene *)

Lemma fold_disposeAndRemove (rem : list Object3D) (sc : Scene) (trace : list Release) :
  fold_left disposeAndRemove rem (sc, trace) =
  (mkScene (background sc)
     (fold_left (fun l o => removeChild (objectId o) l) rem (sceneChildren sc)),
   trace ++ List.map releaseOf rem).
Proof.
  revert sc trace. induction rem as [|o rem IH]; intros sc trace; simpl.
  - destruct sc. by rewrite app_nil_r.
  - change (disposeAndRemove (sc, trace) o)
      with (Object3D_remove o sc, trace ++ [releaseOf o]).
    rewrite IH. simpl. by rewrite <- app_assoc.
Qed.

Lemma removeChild_app_here (pre : list Object3D) (x : Object3D) (l : list Object3D) :
  ~ In (objectId x) (List.map objectId pre) ->
  removeChild (objectId x) (pre ++ x :: l) = pre ++ l.
Proof.
  induction pre as [|p pre IH]; simpl; intros Hn.
  - by rewrite Nat.eqb_refl.
  - destruct (Nat.eqb_spec (objectId p) (objectId x)) as [E|E].
    + exfalso. apply Hn. by left.
    + f_equal. apply IH. intros Hin. apply Hn. by right.
Qed.

Lemma remove_all_unkept (keep : Object3D -> bool) (pre l : list Object3D) :
  List.NoDup (List.map objectId (pre ++ l)) ->
  fold_left (fun l o => removeChild (objectId o) l)
    (List.filter (fun o => negb (keep o)) l) (pre ++ l)
  = pre ++ List.filter keep l.
Proof.
  revert pre. induction l as [|x l IH]; intros pre Hnd; simpl.
  - reflexivity.
  - destruct (keep x) eqn:K; simpl.
    + replace (pre ++ x :: l) with ((pre ++ [x]) ++ l) by (by rewrite <- app_assoc).
      replace (pre ++ x :: List.filter keep l)
        with ((pre ++ [x]) ++ List.filter keep l) by (by rewrite <- app_assoc).
      apply IH. by rewrite <- app_assoc.
    + rewrite removeChild_app_here.
      * apply IH. rewrite map_app in *. simpl in Hnd.
        by apply List.NoDup_remove_1 in Hnd.
      * rewrite map_app in Hnd. simpl in Hnd.
        apply List.NoDup_remove_2 in Hnd. intros Hin. apply Hnd.
        apply in_or_app. by left.
Qed.

Lemma clearScene_present (s : SceneManager) (sc : Scene) :
  scene s = Some sc -> distinctChildren sc ->
  clearScene s =
    if Nat.eqb (length (keptChildren sc)) 0
    then initSceneElements (swept s sc)
    else Normal (swept s sc).
Proof.
  intros Hsc Hnd. unfold clearScene. rewrite Hsc.
  rewrite partition_as_filter, fold_disposeAndRemove.
  pose proof (remove_all_unkept isPreserved [] (sceneChildren sc) Hnd) as Hrem.
  rewrite !app_nil_l in Hrem. rewrite Hrem.
  reflexivity.
Qed.

Lemma clearScene_absent (s : SceneManager) :
  scene s = None ->
  clearScene s =
    Normal (set_nextId
              (set_scene s
                 (Some (mkScene (Some defaultBackground)
                          (defaultFurniture (nextId s)))))
              (nextId s + 8)).
Proof.
  intros Hsc. unfold clearScene. rewrite Hsc.
  rewrite (initSceneElements_present _ (mkScene (Some defaultBackground) []))
    by reflexivity.
  by destruct s.
Qed.

(** [clearScene] always returns normally, with a scene in place, and writes
    nothing but the scene, the disposal trace and the identity counter. *)
Lemma clearScene_frame (s : SceneManager) :
  exists s1 sc1,
    clearScene s = Normal s1 /\ scene s1 = Some sc1
    /\ camera s1 = camera s /\ controls s1 = controls s
    /\ rendererClears s1 = rendererClears s
    /\ boundingBoxes s1 = boundingBoxes s
    /\ objectMatrices s1 = objectMatrices s.
Proof.
  destruct (scene s) as [sc|] eqn:Hsc.
  - unfold clearScene. rewrite Hsc, partition_as_filter, fold_disposeAndRemove.
    destruct (Nat.eqb _ 0).
    + erewrite initSceneElements_present by reflexivity.
      eexists _, _. repeat split.
    + eexists _, _. repeat split.
  - rewrite (clearScene_absent s Hsc). eexists _, _. repeat split.
Qed.

Lemma filter_all_true {A} (f : A -> bool) (l : list A) :
  (forall x, In x l -> f x = true) -> List.filter f l = l.
Proof.
  induction l as [|x l IH]; simpl; intros H; [done|].
  rewrite (H x) by (by left). f_equal. apply IH. intros y Hy. apply H. by right.
Qed.

Lemma filter_all_false {A} (f : A -> bool) (l : list A) :
  (forall x, In x l -> f x = true) -> List.filter (fun x => negb (f x)) l = [].
Proof.
  induction l as [|x l IH]; simpl; intros H; [done|].
  rewrite (H x) by (by left). simpl. apply IH. intros y Hy. apply H. by right.
Qed.

(** A scene that holds permanent furniture only, and some of it, is left as
    it is: nothing is disposed, removed or created. *)
Lemma clearScene_stable (s : SceneManager) (sc : Scene) :
  scene s = Some sc ->
  (forall o, In o (sceneChildren sc) -> isPreserved o = true) ->
  sceneChildren sc <> [] ->
  clearScene s = Normal s.
Proof.
  intros Hsc Hall Hne. unfold clearScene. rewrite Hsc.
  rewrite partition_as_filter.
  rewrite (filter_all_true _ _ Hall), (filter_all_false _ _ Hall). simpl.
  destruct (sceneChildren sc) as [|o l] eqn:E; [done|]. simpl.
  destruct s; simpl in *. by subst.
Qed.

Lemma defaultFurniture_preserved (n : nat) (o : Object3D) :
  In o (defaultFurniture n) -> isPreserved o = true.
Proof. simpl. intros [<-|[<-|[<-|[<-|[]]]]]; reflexivity. Qed.

Lemma keptChildren_preserved (sc : Scene) (o : Object3D) :
  In o (keptChildren sc) -> isPreserved o = true.
Proof. unfold keptChildren. rewrite filter_In. tauto. Qed.

(** What [clearScene] leaves behind, for a scene with distinct children or
    no scene at all: a normal return, with a scene made of the preserved
    children (or of fresh furniture when there was none), and a trace
    extended by one entry per removed child. *)
Lemma clearScene_result (s : SceneManager) :
  (forall sc, scene s = Some sc -> distinctChildren sc) ->
  exists s' sc',
    clearScene s = Normal s'
    /\ scene s' = Some sc'
    /\ sceneChildren sc' <> []
    /\ (forall o, In o (sceneChildren sc') -> isPreserved o = true)
    /\ (forall sc o, scene s = Some sc -> In o (keptChildren sc) ->
          In o (sceneChildren sc'))
    /\ disposals s' =
         disposals s ++
         match scene s with
         | Some sc => List.map releaseOf (removedChildren sc)
         | None => []
         end.
Proof.
  intros Hnd. destruct (scene s) as [sc|] eqn:Hsc.
  - rewrite (clearScene_present s sc Hsc (Hnd sc eq_refl)).
    destruct (keptChildren sc) as [|k ks] eqn:Hk; simpl.
    + rewrite (initSceneElements_present _ (mkScene (background sc) []))
        by (unfold swept; simpl; by rewrite Hk).
      eexists _, _. split; [reflexivity|]. simpl.
      split; [reflexivity|]. simpl.
      split; [discriminate|].
      split; [intros o Ho; by apply (defaultFurniture_preserved (nextId s))|].
      split; [intros sc0 o [= <-]; rewrite Hk; intros []|].
      reflexivity.
    + eexists _, _. split; [reflexivity|]. simpl.
      split; [reflexivity|]. simpl. rewrite Hk.
      split; [discriminate|].
      split; [intros o Ho; apply (keptChildren_preserved sc); by rewrite Hk|].
      split; [intros sc0 o [= <-]; by rewrite Hk|].
      reflexivity.
  - rewrite (clearScene_absent s Hsc).
    eexists _, _. split; [reflexivity|]. simpl.
    split; [reflexivity|]. simpl.
    split; [discriminate|].
    split; [intros o Ho; by apply (defaultFurniture_preserved (nextId s))|].
    split; [intros sc0 o [=]|].
    by rewrite app_nil_r.
Qed.

(** C6.  With [this.scene] absent, [clearScene] returns normally and leaves
    a scene with the default background whose children are exactly the
    default furniture, a grid helper, an axes helper, an ambient light and a
    directional light, each without descendants: the graph holds no other
    object.  Camera, controls and the disposal trace are as before. *)
Theorem clearScene_recreates_missing_scene (s : SceneManager) :
  scene s = None ->
  exists s' sc',
    clearScene s = Normal s'
    /\ scene s' = Some sc'
    /\ background sc' = Some defaultBackground
    /\ sceneChildren sc' = defaultFurniture (nextId s)
    /\ List.map cls (sceneChildren sc')
       = [ClsGridHelper; ClsAxesHelper; ClsAmbientLight; ClsDirectionalLight]
    /\ flat_map traverse (sceneChildren sc') = sceneChildren sc'
    /\ (forall o, In o (flat_map traverse (sceneChildren sc')) ->
          isPreserved o = true)
    /\ camera s' = camera s
    /\ controls s' = controls s
    /\ disposals s' = disposals s.
Proof.
  intros Hsc. rewrite (clearScene_absent s Hsc).
  eexists _, _. split; [reflexivity|]. simpl.
  split; [reflexivity|]. simpl.
  repeat split.
  intros o Ho. by apply (defaultFurniture_preserved (nextId s)).
Qed.

(** *** Sequences of operations *)

Lemma objectId_detach (i : nat) (o : Object3D) : objectId (detach i o) = objectId o.
Proof. by destruct o. Qed.

Lemma objectId_detachAll (i : nat) (l : list Object3D) :
  List.map objectId (detachAll i l)
  = List.filter (fun j => negb (Nat.eqb j i)) (List.map objectId l).
Proof.
  induction l as [|x l IH]; simpl; [done|].
  destruct (Nat.eqb (objectId x) i); simpl; [done|].
  by rewrite objectId_detach, IH.
Qed.

Lemma addToScene_distinct (object : Object3D) (sc : Scene) :
  distinctChildren sc -> distinctChildren (Object3D_add object sc).
Proof.
  unfold distinctChildren, Object3D_add; simpl. intros Hnd.
  rewrite map_app, objectId_detachAll. simpl.
  apply List.NoDup_app.
  - by apply List.NoDup_filter.
  - repeat constructor. intros [].
  - intros a Ha [<-|[]]. apply filter_In in Ha as [_ Ha].
    by rewrite Nat.eqb_refl in Ha.
Qed.

Lemma NoDup_map_filter {A B} (f : A -> B) (p : A -> bool) (l : list A) :
  List.NoDup (List.map f l) -> List.NoDup (List.map f (List.filter p l)).
Proof.
  induction l as [|x l IH]; simpl; intros Hnd; [constructor|].
  inversion Hnd as [|? ? Hx Hl]; subst.
  destruct (p x); simpl; [constructor|]; auto.
  intros Hin. apply Hx. apply in_map_iff in Hin as (y & <- & Hy).
  apply in_map. apply filter_In in Hy. tauto.
Qed.

Lemma defaultFurniture_distinct (n : nat) :
  List.NoDup (List.map objectId (defaultFurniture n)).
Proof.
  simpl. repeat constructor; simpl; intros H;
    repeat (destruct H as [H|H]; [lia|]); exact H.
Qed.

Lemma clearScene_distinct (s s' : SceneManager) (sc' : Scene) :
  (forall sc, scene s = Some sc -> distinctChildren sc) ->
  clearScene s = Normal s' -> scene s' = Some sc' ->
  distinctChildren sc'.
Proof.
  intros Hnd. destruct (scene s) as [sc|] eqn:Hsc.
  - rewrite (clearScene_present s sc Hsc (Hnd sc eq_refl)).
    destruct (keptChildren sc) as [|k ks] eqn:Hk; simpl.
    + rewrite (initSceneElements_present _ (mkScene (background sc) []))
        by (unfold swept; simpl; by rewrite Hk).
      intros [= <-]. simpl. intros [= <-]. apply defaultFurniture_distinct.
    + intros [= <-]. simpl. intros [= <-]. unfold distinctChildren. simpl.
      apply NoDup_map_filter, (Hnd sc eq_refl).
  - rewrite (clearScene_absent s Hsc).
    intros [= <-]. simpl. intros [= <-]. apply defaultFurniture_distinct.
Qed.

(** From a state with a scene whose children are distinct, every sequence
    of [addToScene] and [clearScene] calls runs to its end, and ends in
    such a state. *)
Lemma performAll_runs (ops : list Operation) (s : SceneManager) (sc : Scene) :
  scene s = Some sc -> distinctChildren sc ->
  exists s1 sc1,
    performAll ops s = Normal s1 /\ scene s1 = Some sc1 /\ distinctChildren sc1.
Proof.
  revert s sc. induction ops as [|op ops IH]; intros s sc Hsc Hnd; simpl.
  - by exists s, sc.
  - destruct op as [object|]; simpl.
    + unfold addToScene. rewrite Hsc. simpl.
      eapply IH; [reflexivity|]. by apply addToScene_distinct.
    + destruct (clearScene_result s) as (s' & sc' & Hc & Hsc' & _).
      { intros sc0 H0. congruence. }
      rewrite Hc. simpl. apply (IH s' sc' Hsc').
      apply (clearScene_distinct s s' sc'); auto. intros sc0 H0. congruence.
Qed.

Lemma disposeMaterial_covers (m : Material) :
  In (MaterialHandle (materialId m)) (disposeMaterial m)
  /\ forall t, mapTexture m = Some t -> In (TextureHandle t) (disposeMaterial m).
Proof.
  unfold disposeMaterial. split.
  - apply in_or_app. right. by left.
  - intros t ->. by left.
Qed.

(** The removal callback disposes of everything the object owns. *)
Lemma disposeOf_complete (o : Object3D) (r : Disposable) :
  owns o r -> In r (disposeOf o).
Proof.
  unfold disposeOf.
  intros [g Hg|m Hm|m t Hm Ht]; unfold hasMaterial in *; apply in_or_app.
  - left. rewrite Hg. by left.
  - right. revert Hm. destruct (material o) as [|m'|ms]; simpl; intros Hm;
      [destruct Hm| |].
    + subst. apply disposeMaterial_covers.
    + apply in_flat_map. exists m. split; [done|]. apply disposeMaterial_covers.
  - right. revert Hm. destruct (material o) as [|m'|ms]; simpl; intros Hm;
      [destruct Hm| |].
    + subst. by apply disposeMaterial_covers.
    + apply in_flat_map. exists m. split; [done|]. by apply disposeMaterial_covers.
Qed.

(** C1 fails over the whole graph.  In the viewport that holds a group
    around a mesh and a point light, [clearScene] removes the group: the
    point light, a permanent object of the graph, is in the graph no
    longer, and the mesh has left it without a run of the disposal
    callback. *)
Lemma nested_light_leaves_with_its_group :
  ~ clearContentSweepsGraph viewportWithLitModel.
Proof.
  intros H.
  pose (sc := default (mkScene None []) (scene viewportWithLitModel)).
  destruct (H sc eq_refl) as (s' & sc' & Hrun & Hsc' & Hkept & _ & Hreleased).
  vm_compute in Hrun. injection Hrun as <-.
  vm_compute in Hsc'. injection Hsc' as <-.
  specialize (Hkept (mkObject3D 105 ClsPointLight None NoMaterial (v3 0 5 0) [])).
  vm_compute in Hkept. intuition discriminate.
Qed.

(** C1, amended: the children of the root.  From a state whose scene has
    distinct children, every sequence of [addToScene] and [clearScene]
    calls runs to its end, and a [clearScene] issued after it returns
    normally and leaves a scene that
    - still has every child that was permanent (light, grid, axes) before
      the call,
    - has permanent children only, hence none of the content objects handed
      to [addToScene] earlier,
    - and whose trace shows, for every content child the call removed, a
      run of the disposal callback covering all that the object itself
      owns: its geometry, each of its materials and each material's
      texture. *)
Theorem clearContent_after_any_sequence
    (ops : list Operation) (s : SceneManager) (sc : Scene) :
  scene s = Some sc -> distinctChildren sc ->
  exists s1 sc1 s2 sc2,
    performAll ops s = Normal s1 /\ scene s1 = Some sc1
    /\ clearScene s1 = Normal s2 /\ scene s2 = Some sc2
    /\ (forall o, In o (sceneChildren sc1) -> isPreserved o = true ->
          In o (sceneChildren sc2))
    /\ (forall o, In o (sceneChildren sc2) -> isPreserved o = true)
    /\ (forall o, In (OpAddToScene o) ops -> isPreserved o = false ->
          ~ In o (sceneChildren sc2))
    /\ (forall o, In o (sceneChildren sc1) -> isPreserved o = false ->
          In (releaseOf o) (disposals s2)
          /\ forall r, owns o r -> In r (disposeCalls (releaseOf o))).
Proof.
  intros Hsc Hnd.
  destruct (performAll_runs ops s sc Hsc Hnd) as (s1 & sc1 & Hrun & Hsc1 & Hnd1).
  destruct (clearScene_result s1) as (s2 & sc2 & Hc & Hsc2 & _ & Hall & Hkept & Htr).
  { intros sc0 H0. congruence. }
  exists s1, sc1, s2, sc2. repeat (split; [assumption|]).
  split; [|split; [exact Hall|split]].
  - intros o Ho Hp. apply (Hkept sc1 o Hsc1). unfold keptChildren.
    apply filter_In. by split.
  - intros o _ Hp Hin. apply Hall in Hin. congruence.
  - intros o Ho Hp. split.
    + rewrite Htr, Hsc1. apply in_or_app. right. apply in_map.
      unfold removedChildren. apply filter_In. split; [done|]. by rewrite Hp.
    + intros r Hr. simpl. by apply disposeOf_complete.
Qed.

(** *** Idempotence *)

Lemma Disposable_eq_dec (a b : Disposable) : {a = b} + {a <> b}.
Proof. decide equality; apply Nat.eq_dec. Defined.

Lemma NoDup_app_disjoint {A} (l k : list A) (x : A) :
  List.NoDup (l ++ k) -> In x l -> ~ In x k.
Proof.
  induction l as [|y l IH]; simpl; intros Hnd Hin; [done|].
  inversion Hnd as [|? ? Hy Hl]; subst. destruct Hin as [->|Hin].
  - intros Hk. apply Hy. apply in_or_app. by right.
  - by apply IH.
Qed.

Lemma NoDup_flat_map_filter {A B} (f : A -> list B) (p : A -> bool) (l : list A) :
  List.NoDup (flat_map f l) -> List.NoDup (flat_map f (List.filter p l)).
Proof.
  induction l as [|x l IH]; simpl; intros Hnd; [constructor|].
  pose proof (List.NoDup_app_remove_l _ _ Hnd) as Hl.
  destruct (p x); simpl; [|by apply IH].
  apply List.NoDup_app.
  - by apply List.NoDup_app_remove_r in Hnd.
  - by apply IH.
  - intros a Ha Hin. apply (NoDup_app_disjoint _ _ a Hnd Ha).
    apply in_flat_map in Hin as (y & Hy & Hay). apply in_flat_map.
    exists y. split; [|done]. apply filter_In in Hy. tauto.
Qed.

(** C4.  For a scene with distinct children (or no scene at all), a second
    [clearScene] right after a first one changes nothing: the state after
    two calls is the state after one, a scene of permanent objects only.
    Over the two calls together the disposal callback ran at most once on
    any object; and where the children own their handles separately (no
    handle listed twice), [dispose()] was called at most once on any
    handle. *)
Theorem clearContent_idempotent (s : SceneManager) :
  (forall sc, scene s = Some sc -> distinctChildren sc) ->
  exists s1 s2 sc1,
    clearScene s = Normal s1 /\ clearScene s1 = Normal s2
    /\ s2 = s1
    /\ scene s1 = Some sc1
    /\ (forall o, In o (sceneChildren sc1) -> isPreserved o = true)
    /\ (forall n,
          count_occ Nat.eq_dec
            (List.map releasedObject (releasesSince s s2)) n <= 1)
    /\ ((forall sc, scene s = Some sc ->
           List.NoDup (flat_map disposeOf (sceneChildren sc))) ->
        forall r,
          count_occ Disposable_eq_dec
            (flat_map disposeCalls (releasesSince s s2)) r <= 1).
Proof.
  intros Hnd.
  destruct (clearScene_result s Hnd) as (s1 & sc1 & Hc & Hsc1 & Hne & Hall & _ & Htr).
  exists s1, s1, sc1.
  split; [exact Hc|].
  split; [by apply (clearScene_stable s1 sc1)|].
  split; [reflexivity|]. split; [exact Hsc1|]. split; [exact Hall|].
  assert (Hrel : releasesSince s s1 =
                 match scene s with
                 | Some sc => List.map releaseOf (removedChildren sc)
                 | None => []
                 end).
  { unfold releasesSince. rewrite Htr. by rewrite drop_app_length. }
  rewrite Hrel. split.
  - apply NoDup_count_occ. destruct (scene s) as [sc|] eqn:Hsc; [|constructor].
    rewrite map_map. simpl. apply NoDup_map_filter, (Hnd sc eq_refl).
  - intros Hown. apply NoDup_count_occ.
    destruct (scene s) as [sc|] eqn:Hsc; [|constructor].
    rewrite flat_map_concat_map, map_map, <- flat_map_concat_map. simpl.
    apply NoDup_flat_map_filter, (Hown sc eq_refl).
Qed.

(** *** Objects below the root's children *)

Lemma traverse_unfold (o : Object3D) : traverse o = o :: descendants o.
Proof. by destruct o. Qed.

Lemma In_flat_traverse (l : list Object3D) (c n : Object3D) :
  In c l -> In n (traverse c) -> In n (flat_map traverse l).
Proof. intros Hc Hn. apply in_flat_map. by exists c. Qed.

Lemma In_flat_traverse_self (l : list Object3D) (c : Object3D) :
  In c l -> In c (flat_map traverse l).
Proof.
  intros Hc. apply (In_flat_traverse l c c Hc). rewrite traverse_unfold. by left.
Qed.

Lemma distinct_segments (a d b : list nat) (x y : nat) :
  List.NoDup (a ++ x :: d ++ b) -> In y d ->
  ~ In y a /\ y <> x /\ ~ In y b.
Proof.
  intros Hnd Hy. rewrite (NoDup_count_occ Nat.eq_dec) in Hnd.
  specialize (Hnd y). rewrite count_occ_app in Hnd. simpl in Hnd.
  rewrite (count_occ_In Nat.eq_dec) in Hy.
  destruct (Nat.eq_dec x y) as [E|E]; rewrite count_occ_app in Hnd;
    rewrite !(count_occ_not_In Nat.eq_dec); repeat split; try lia.
Qed.

Lemma sceneObjects_split (l1 l2 : list Object3D) (p : Object3D) :
  List.map objectId (flat_map traverse (l1 ++ p :: l2))
  = List.map objectId (flat_map traverse l1)
    ++ objectId p
       :: List.map objectId (descendants p)
          ++ List.map objectId (flat_map traverse l2).
Proof.
  rewrite flat_map_app. simpl. rewrite traverse_unfold.
  rewrite (map_app _ (flat_map traverse l1)). f_equal.
  simpl. by rewrite map_app.
Qed.

Lemma distinctObjects_children (sc : Scene) :
  distinctObjects sc -> distinctChildren sc.
Proof.
  unfold distinctObjects, distinctChildren, sceneObjects.
  induction (sceneChildren sc) as [|x l IH]; simpl; intros Hnd; [constructor|].
  rewrite traverse_unfold in Hnd. simpl in Hnd. rewrite map_app in Hnd.
  inversion Hnd as [|? ? Hx Hl]; subst. constructor.
  - intros Hin. apply Hx. apply in_or_app. right.
    apply in_map_iff in Hin as (y & <- & Hy). apply in_map.
    by apply In_flat_traverse_self.
  - apply IH. by apply List.NoDup_app_remove_l in Hl.
Qed.

(** An object below a child of the root shares its identity with no child
    of the root, and sits below no other child. *)
Lemma nested_apart (sc : Scene) (p n : Object3D) :
  distinctObjects sc ->
  In p (sceneChildren sc) -> In n (descendants p) ->
  ~ In (objectId n) (List.map objectId (sceneChildren sc))
  /\ forall k, In k (sceneChildren sc) -> In n (traverse k) -> k = p.
Proof.
  unfold distinctObjects, sceneObjects. intros Hnd Hp Hn.
  apply in_split in Hp as (l1 & l2 & Hsplit). rewrite Hsplit in *.
  rewrite sceneObjects_split in Hnd.
  destruct (distinct_segments _ _ _ _ (objectId n) Hnd) as (Ha & Hx & Hb).
  { by apply in_map. }
  assert (Hout : forall l k, In k l ->
            ~ In (objectId n) (List.map objectId (flat_map traverse l)) ->
            ~ In n (traverse k)).
  { intros l k Hk Hnot Hin. apply Hnot, in_map.
    by apply (In_flat_traverse l k n). }
  split.
  - rewrite map_app. simpl. intros Hin.
    apply in_app_or in Hin as [Hin|[Hin|Hin]].
    + apply Ha. apply in_map_iff in Hin as (y & Hy & Hyl). rewrite <- Hy.
      apply in_map. by apply In_flat_traverse_self.
    + congruence.
    + apply Hb. apply in_map_iff in Hin as (y & Hy & Hyl). rewrite <- Hy.
      apply in_map. by apply In_flat_traverse_self.
  - intros k Hk Hnk. apply in_app_or in Hk as [Hk|[Hk|Hk]].
    + by destruct (Hout l1 k Hk Ha).
    + done.
    + by destruct (Hout l2 k Hk Hb).
Qed.

Lemma clearScene_children (s : SceneManager) (sc : Scene) :
  scene s = Some sc -> distinctChildren sc ->
  exists s' sc',
    clearScene s = Normal s' /\ scene s' = Some sc'
    /\ sceneChildren sc' =
         match keptChildren sc with
         | [] => defaultFurniture (nextId s)
         | _ => keptChildren sc
         end
    /\ releasesSince s s' = List.map releaseOf (removedChildren sc).
Proof.
  intros Hsc Hnd. rewrite (clearScene_present s sc Hsc Hnd).
  unfold releasesSince.
  destruct (keptChildren sc) as [|k ks] eqn:Hk; simpl.
  - rewrite (initSceneElements_present _ (mkScene (background sc) []))
      by (unfold swept; simpl; by rewrite Hk).
    eexists _, _. split; [reflexivity|]. simpl. split; [reflexivity|]. simpl.
    split; [reflexivity|]. by rewrite drop_app_length.
  - eexists _, _. split; [reflexivity|]. simpl. split; [reflexivity|]. simpl.
    split; [done|]. by rewrite drop_app_length.
Qed.

(** C10 fails as worded: in the viewport holding a group around a mesh,
    [clearScene] removes the group, and the mesh below it is in the graph
    no longer. *)
Lemma nested_mesh_leaves_with_its_group : ~ nestedContentRemains viewportWithModel.
Proof.
  intros H.
  pose (sc := default (mkScene None []) (scene viewportWithModel)).
  destruct (H sc (groupOf 100 origin [cubeMesh 101 origin]) (cubeMesh 101 origin))
    as (sc' & Hsc' & Hin & _).
  - reflexivity.
  - vm_compute. pick_member.
  - vm_compute. pick_member.
  - reflexivity.
  - vm_compute in Hsc'. injection Hsc' as <-.
    vm_compute in Hin. intuition discriminate.
Qed.

(** C10, amended.  In a scene whose objects have distinct identities,
    [clearScene] runs the disposal callback on no object that sits below a
    child of the root.  Such an object follows the child it sits below: if
    that child is permanent it is still a child afterwards, the same value
    with all that hangs below it, so the object remains in the graph
    unchanged; if that child is content, a content object below it is in
    the graph no longer. *)
Theorem nested_objects_follow_their_ancestor (s : SceneManager) (sc : Scene) :
  scene s = Some sc -> distinctObjects sc ->
  exists s' sc',
    clearScene s = Normal s' /\ scene s' = Some sc'
    /\ forall p n,
         In p (sceneChildren sc) -> In n (descendants p) ->
         ~ In (objectId n) (List.map releasedObject (releasesSince s s'))
         /\ (isPreserved p = true ->
               In p (sceneChildren sc') /\ In n (sceneObjects sc'))
         /\ (isPreserved p = false -> isPreserved n = false ->
               ~ In n (sceneObjects sc')).
Proof.
  intros Hsc Hnd.
  destruct (clearScene_children s sc Hsc (distinctObjects_children sc Hnd))
    as (s' & sc' & Hc & Hsc' & Hch & Hrel).
  exists s', sc'. split; [exact Hc|]. split; [exact Hsc'|].
  intros p n Hp Hn.
  destruct (nested_apart sc p n Hnd Hp Hn) as [Hid Honly].
  split; [|split].
  - rewrite Hrel, map_map. simpl. intros Hin. apply Hid.
    apply in_map_iff in Hin as (y & Hy & Hyl). rewrite <- Hy. apply in_map.
    unfold removedChildren in Hyl. apply filter_In in Hyl. tauto.
  - intros Hpres.
    assert (Hk : In p (keptChildren sc)) by (apply filter_In; by split).
    assert (Hp' : In p (sceneChildren sc')).
    { rewrite Hch. by destruct (keptChildren sc). }
    split; [exact Hp'|].
    apply (In_flat_traverse _ p n Hp'). rewrite traverse_unfold. by right.
  - intros Hpc Hnc Hin. unfold sceneObjects in Hin.
    apply in_flat_map in Hin as (k & Hk & Hnk).
    assert (Hkp : isPreserved k = true).
    { rewrite Hch in Hk. destruct (keptChildren sc) eqn:E.
      - by apply (defaultFurniture_preserved (nextId s)).
      - rewrite <- E in Hk. by apply (keptChildren_preserved sc). }
    rewrite Hch in Hk. destruct (keptChildren sc) as [|k0 ks] eqn:E.
    + simpl in Hk.
      destruct Hk as [<-|[<-|[<-|[<-|[]]]]]; simpl in Hnk;
        destruct Hnk as [<-|[]]; discriminate.
    + rewrite <- E in Hk. apply filter_In in Hk as [Hk _].
      rewrite (Honly k Hk Hnk) in Hkp. congruence.
Qed.

(** *** The theorems at work on the example scenes *)

Lemma clearScene_recreates_missing_scene_witness :
  scene (set_scene viewportWithModel None) = None
  /\ exists s' sc',
       clearScene (set_scene viewportWithModel None) = Normal s'
       /\ scene s' = Some sc'
       /\ background sc' = Some defaultBackground
       /\ sceneChildren sc' = defaultFurniture (nextId (set_scene viewportWithModel None))
       /\ List.map cls (sceneChildren sc')
          = [ClsGridHelper; ClsAxesHelper; ClsAmbientLight; ClsDirectionalLight]
       /\ flat_map traverse (sceneChildren sc') = sceneChildren sc'
       /\ (forall o, In o (flat_map traverse (sceneChildren sc')) ->
             isPreserved o = true)
       /\ camera s' = camera (set_scene viewportWithModel None)
       /\ controls s' = controls (set_scene viewportWithModel None)
       /\ disposals s' = disposals (set_scene viewportWithModel None).
Proof.
  split; [reflexivity|].
  apply (clearScene_recreates_missing_scene (set_scene viewportWithModel None)).
  reflexivity.
Defined.

Lemma clearContent_after_any_sequence_witness :
  scene viewport = Some viewportScene
  /\ distinctChildren viewportScene
  /\ exists s1 sc1 s2 sc2,
       performAll exampleRun viewport = Normal s1 /\ scene s1 = Some sc1
       /\ clearScene s1 = Normal s2 /\ scene s2 = Some sc2
       /\ (forall o, In o (sceneChildren sc1) -> isPreserved o = true ->
             In o (sceneChildren sc2))
       /\ (forall o, In o (sceneChildren sc2) -> isPreserved o = true)
       /\ (forall o, In (OpAddToScene o) exampleRun -> isPreserved o = false ->
             ~ In o (sceneChildren sc2))
       /\ (forall o, In o (sceneChildren sc1) -> isPreserved o = false ->
             In (releaseOf o) (disposals s2)
             /\ forall r, owns o r -> In r (disposeCalls (releaseOf o))).
Proof.
  split; [reflexivity|]. split; [distinct_ids|].
  apply (clearContent_after_any_sequence exampleRun viewport viewportScene).
  - reflexivity.
  - distinct_ids.
Defined.

Lemma clearContent_idempotent_witness :
  (forall sc, scene viewportWithModel = Some sc -> distinctChildren sc)
  /\ exists s1 s2 sc1,
       clearScene viewportWithModel = Normal s1 /\ clearScene s1 = Normal s2
       /\ s2 = s1
       /\ scene s1 = Some sc1
       /\ (forall o, In o (sceneChildren sc1) -> isPreserved o = true)
       /\ (forall n,
             count_occ Nat.eq_dec
               (List.map releasedObject (releasesSince viewportWithModel s2)) n <= 1)
       /\ ((forall sc, scene viewportWithModel = Some sc ->
              List.NoDup (flat_map disposeOf (sceneChildren sc))) ->
           forall r,
             count_occ Disposable_eq_dec
               (flat_map disposeCalls (releasesSince viewportWithModel s2)) r <= 1).
Proof.
  assert (H : forall sc, scene viewportWithModel = Some sc -> distinctChildren sc).
  { intros sc Hsc. vm_compute in Hsc. injection Hsc as <-. distinct_ids. }
  split; [exact H|].
  apply (clearContent_idempotent viewportWithModel H).
Defined.

Lemma nested_objects_follow_their_ancestor_witness :
  scene viewportWithModel = Some modelScene
  /\ distinctObjects modelScene
  /\ exists s' sc',
       clearScene viewportWithModel = Normal s' /\ scene s' = Some sc'
       /\ forall p n,
            In p (sceneChildren modelScene) -> In n (descendants p) ->
            ~ In (objectId n)
                (List.map releasedObject (releasesSince viewportWithModel s'))
            /\ (isPreserved p = true ->
                  In p (sceneChildren sc') /\ In n (sceneObjects sc'))
            /\ (isPreserved p = false -> isPreserved n = false ->
                  ~ In n (sceneObjects sc')).
Proof.
  split; [reflexivity|]. split; [distinct_ids|].
  apply (nested_objects_follow_their_ancestor viewportWithModel modelScene).
  - reflexivity.
  - distinct_ids.
Defined.

(** ** Framing *)

(** [focusOnModel] either leaves camera and controls as they are (no scene,
    nothing to frame, or a mesh without geometry), or returns normally with
    the controls target at the very point the camera looks at. *)
Lemma focusOnModel_syncs_target (s : SceneManager) (c : OrbitControls) :
  controls s = Some c ->
  poseKept s (state_of (focusOnModel s))
  \/ exists s' c',
       focusOnModel s = Normal s'
       /\ controls s' = Some c' /\ target c' = cameraLookAt (camera s').
Proof.
  intros Hc. unfold focusOnModel. destruct (scene s) as [sc|]; [|by left].
  destruct (Nat.eqb _ 0); [by left|].
  destruct (focusBounds _ _ _ _) as [[cache matrices] [box|]]; [|by left].
  right. unfold controls_target_set, controls_update; simpl. rewrite Hc. simpl.
  eexists _, _. repeat split.
Qed.

(** [centerModel] returns normally; it either leaves camera and controls as
    they are (no scene, nothing to centre), or leaves the controls target
    at the point the camera looks at. *)
Lemma centerModel_syncs_target (s : SceneManager) (c : OrbitControls) :
  controls s = Some c ->
  exists s',
    centerModel s = Normal s'
    /\ (poseKept s s'
        \/ exists c', controls s' = Some c'
                      /\ target c' = cameraLookAt (camera s')).
Proof.
  intros Hc. unfold centerModel. destruct (scene s) as [sc|].
  2:{ eexists. split; [reflexivity|]. by left. }
  destruct (centerBounds _ _ _) as [[cache matrices] box].
  destruct (Nat.eqb _ 0); simpl.
  - eexists. split; [reflexivity|]. by left.
  - rewrite Hc. unfold controls_target_set, controls_update; simpl.
    rewrite Hc. simpl. eexists. split; [reflexivity|]. right.
    eexists. split; reflexivity.
Qed.

(** [reset] with controls in place: the scene is cleared, the camera is
    aimed at the controls target, [update()] ran twice and the renderer
    was cleared once. *)
Lemma reset_state (s : SceneManager) (c : OrbitControls) :
  controls s = Some c ->
  exists s1 s',
    clearScene s = Normal s1 /\ reset s = Normal s'
    /\ scene s' = scene s1 /\ disposals s' = disposals s1
    /\ nextId s' = nextId s1
    /\ cameraLookAt (camera s') = target c
    /\ controls s' = Some (mkControls (target c) (S (S (updates c))))
    /\ rendererClears s' = S (rendererClears s)
    /\ boundingBoxes s' = boundingBoxes s
    /\ objectMatrices s' = objectMatrices s.
Proof.
  intros Hc.
  destruct (clearScene_frame s)
    as (s1 & sc1 & Hrun & Hsc1 & Hcam & Hctl & Hrc & Hbb & Hmw).
  exists s1. unfold reset, resetCamera. rewrite Hrun. simpl.
  rewrite (setPerspectiveView_state s1 c) by congruence. simpl.
  unfold controls_update, renderer_clear. simpl.
  eexists. split; [reflexivity|]. split; [reflexivity|]. simpl.
  rewrite Hrc, Hbb, Hmw. repeat split.
Qed.

(** C2.  With controls in place, [setTopView], [setPerspectiveView] and
    [reset] return normally in a state where the controls target is the
    point the camera looks at, whatever the state before.  [centerModel]
    returns normally and [focusOnModel] ends in a state where either the
    same holds or camera and controls are as they were (nothing qualified,
    there is no scene, or a mesh has no geometry).  So from a state where
    target and look-at agree, as the constructor leaves them, every one of
    the five operations ends in a state where they agree. *)
Theorem controls_target_is_the_look_at (s : SceneManager) (c : OrbitControls) :
  controls s = Some c ->
  (exists s', setTopView s = Normal s' /\ targetFollowsLookAt s')
  /\ (exists s', setPerspectiveView s = Normal s' /\ targetFollowsLookAt s')
  /\ (exists s', reset s = Normal s' /\ targetFollowsLookAt s')
  /\ (exists s', centerModel s = Normal s'
                 /\ (targetFollowsLookAt s' \/ poseKept s s'))
  /\ ((exists s', focusOnModel s = Normal s' /\ targetFollowsLookAt s')
      \/ poseKept s (state_of (focusOnModel s)))
  /\ (targetFollowsLookAt s ->
        targetFollowsLookAt (state_of (centerModel s))
        /\ targetFollowsLookAt (state_of (focusOnModel s))).
Proof.
  intros Hc.
  assert (Hkept : forall s', targetFollowsLookAt s -> poseKept s s' ->
                             targetFollowsLookAt s').
  { intros s' (c0 & Hc0 & Heq) (Hcam & Hctl). exists c0.
    rewrite Hctl, Hcam. by split. }
  assert (Hsync : forall s' c', controls s' = Some c' ->
                    target c' = cameraLookAt (camera s') ->
                    targetFollowsLookAt s').
  { intros s' c' Hc' Heq. exists c'. split; [exact Hc'|]. rewrite Heq.
    repeat split; reflexivity. }
  destruct (centerModel_syncs_target s c Hc) as (sC & HrunC & HC).
  pose proof (focusOnModel_syncs_target s c Hc) as HF.
  split; [|split; [|split; [|split; [|split]]]].
  - rewrite (setTopView_state s c Hc). eexists. split; [reflexivity|].
    eapply Hsync; reflexivity.
  - rewrite (setPerspectiveView_state s c Hc). eexists. split; [reflexivity|].
    eapply Hsync; reflexivity.
  - destruct (reset_state s c Hc)
      as (s1 & s' & _ & Hrun & _ & _ & _ & Hla & Hctl & _).
    exists s'. split; [exact Hrun|]. eapply Hsync; [exact Hctl|].
    by rewrite Hla.
  - exists sC. split; [exact HrunC|].
    destruct HC as [HC|(c' & Hc' & Heq)]; [by right|left].
    by apply (Hsync sC c').
  - destruct HF as [HF|(s' & c' & Hrun & Hc' & Heq)]; [by right|left].
    exists s'. split; [exact Hrun|]. by apply (Hsync s' c').
  - intros Hinv. split.
    + rewrite HrunC. simpl.
      destruct HC as [HC|(c' & Hc' & Heq)];
        [by apply Hkept | by apply (Hsync sC c')].
    + destruct HF as [HF|(s' & c' & Hrun & Hc' & Heq)].
      * by apply Hkept.
      * rewrite Hrun. simpl. by apply (Hsync s' c').
Qed.

(** C2 on the viewport with a cube centred at (5, 3, -2): target and
    look-at agree there, and after each of the five operations. *)
Lemma controls_target_is_the_look_at_witness :
  controls viewportOffCentre = Some (mkControls origin 1)
  /\ targetFollowsLookAt viewportOffCentre
  /\ (exists s', setTopView viewportOffCentre = Normal s'
                 /\ targetFollowsLookAt s')
  /\ (exists s', setPerspectiveView viewportOffCentre = Normal s'
                 /\ targetFollowsLookAt s')
  /\ (exists s', reset viewportOffCentre = Normal s' /\ targetFollowsLookAt s')
  /\ targetFollowsLookAt (state_of (centerModel viewportOffCentre))
  /\ targetFollowsLookAt (state_of (focusOnModel viewportOffCentre)).
Proof.
  assert (Hinv : targetFollowsLookAt viewportOffCentre).
  { eexists. split; [reflexivity|]. vm_compute. repeat split; reflexivity. }
  destruct (controls_target_is_the_look_at viewportOffCentre
              (mkControls origin 1) eq_refl)
    as (Ht & Hp & Hr & _ & _ & Hf).
  destruct (Hf Hinv) as (Hcm & Hfm).
  split; [reflexivity|]. split; [exact Hinv|].
  split; [exact Ht|]. split; [exact Hp|]. split; [exact Hr|].
  split; [exact Hcm | exact Hfm].
Defined.

(** *** Nothing to frame *)

(** C8.  In a scene where no object passes the framing filter, the
    accumulation of content bounds ends with the empty box, in the form
    [focusOnModel] has it and in the form [centerModel] has it, without
    touching any cached box or matrix; and [focusOnModel] returns normally
    with the state it was given, so camera position, look-at and controls
    target are as before.  So does [centerModel]. *)
Theorem framing_without_content_is_a_no_op (s : SceneManager) (sc : Scene) :
  scene s = Some sc ->
  (forall wo, In wo (sceneTraverse sc) -> focusFilter wo.2 = false) ->
  focusBounds (boundingBoxes s) (objectMatrices s) EmptyBox3
    (List.filter (fun wo => focusFilter wo.2) (sceneTraverse sc))
    = (boundingBoxes s, objectMatrices s, Some EmptyBox3)
  /\ centerBounds (boundingBoxes s) (objectMatrices s)
       (List.filter (fun wo => centerFilter wo.2) (sceneTraverse sc))
     = (boundingBoxes s, objectMatrices s, EmptyBox3)
  /\ focusOnModel s = Normal s
  /\ centerModel s = Normal s.
Proof.
  intros Hsc Hnone.
  assert (Hf : List.filter (fun wo => focusFilter wo.2) (sceneTraverse sc) = []).
  { induction (sceneTraverse sc) as [|wo l IH]; simpl; [done|].
    rewrite (Hnone wo) by (by left). apply IH. intros x Hx. apply Hnone. by right. }
  assert (Hcf : List.filter (fun wo => centerFilter wo.2) (sceneTraverse sc) = []).
  { rewrite <- Hf. apply filter_ext. intros wo. apply centerFilter_focusFilter. }
  unfold focusOnModel, centerModel. rewrite Hsc, Hf, Hcf. simpl.
  repeat split. by rewrite set_cached_same.
Qed.

Lemma framing_without_content_is_a_no_op_witness :
  scene viewport = Some viewportScene
  /\ (forall wo, In wo (sceneTraverse viewportScene) -> focusFilter wo.2 = false)
  /\ focusOnModel viewport = Normal viewport
  /\ centerModel viewport = Normal viewport.
Proof.
  assert (H : forall wo, In wo (sceneTraverse viewportScene) -> focusFilter wo.2 = false).
  { intros wo Hin. vm_compute in Hin.
    repeat (destruct Hin as [<-|Hin]; [reflexivity|]). destruct Hin. }
  split; [reflexivity|]. split; [exact H|].
  apply (framing_without_content_is_a_no_op viewport viewportScene eq_refl H).
Defined.

(** *** Framing a box *)






(** *** Centering *)

Lemma Object3D_forall_ind (P : Object3D -> Prop) :
  (forall n c g m p ch, Forall P ch -> P (mkObject3D n c g m p ch)) ->
  forall o, P o.
Proof.
  intros Hnode. fix IH 1. intros [n c g m p ch]. apply Hnode.
  revert ch. fix IHch 1. intros [|x ch]; constructor; [apply IH|apply IHch].
Qed.





(** ** What the bounds queries write *)

(** *** Cached bounding boxes *)

Section CacheRefresh.

Implicit Types (geos : list BufferGeometry) (cache : gmap nat Box3).

Lemma refreshed_refl geos cache : refreshedFrom geos cache cache.
Proof. intros i. by left. Qed.

Lemma refreshed_trans geos cache1 cache2 cache3 :
  refreshedFrom geos cache1 cache2 -> refreshedFrom geos cache2 cache3 ->
  refreshedFrom geos cache1 cache3.
Proof.
  intros H12 H23 i. destruct (H23 i) as [E|H]; [|by right].
  rewrite E. apply H12.
Qed.

Lemma refreshed_mono geos geos' cache cache' :
  (forall g, In g geos -> In g geos') ->
  refreshedFrom geos cache cache' -> refreshedFrom geos' cache cache'.
Proof.
  intros Hsub H i. destruct (H i) as [E|(g & Hg & Hi & E)]; [by left|].
  right. exists g. auto.
Qed.

Lemma refreshed_insert geos cache (g : BufferGeometry) :
  In g geos ->
  refreshedFrom geos cache
    (<[geometryId g := setFromPoints (positionAttribute g)]> cache).
Proof.
  intros Hg i. destruct (decide (geometryId g = i)) as [<-|Hne].
  - right. exists g. by rewrite lookup_insert_eq.
  - left. by rewrite lookup_insert_ne.
Qed.

Lemma filled_refl geos cache : filledFrom geos cache cache.
Proof. intros i. by left. Qed.

Lemma filled_trans geos cache1 cache2 cache3 :
  filledFrom geos cache1 cache2 -> filledFrom geos cache2 cache3 ->
  filledFrom geos cache1 cache3.
Proof.
  intros H12 H23 i.
  destruct (H23 i) as [E|(Hnone & g & Hg & Hi & E)].
  - rewrite E. apply H12.
  - right. split; [|by exists g].
    destruct (H12 i) as [E'|(Hnone' & _)]; congruence.
Qed.

Lemma filled_mono geos geos' cache cache' :
  (forall g, In g geos -> In g geos') ->
  filledFrom geos cache cache' -> filledFrom geos' cache cache'.
Proof.
  intros Hsub H i. destruct (H i) as [E|(Hnone & g & Hg & Hi & E)]; [by left|].
  right. split; [done|]. exists g. auto.
Qed.

Lemma filled_refreshed geos cache cache' :
  filledFrom geos cache cache' -> refreshedFrom geos cache cache'.
Proof.
  intros H i. destruct (H i) as [E|(_ & Hg)]; [by left | by right].
Qed.

(** Filling in leaves every entry that was there. *)
Lemma filled_keeps geos cache cache' (i : nat) (b : Box3) :
  filledFrom geos cache cache' -> cache !! i = Some b -> cache' !! i = Some b.
Proof.
  intros H Hi. destruct (H i) as [E|(Hnone & _)]; congruence.
Qed.

Lemma filled_subseteq geos cache cache' :
  filledFrom geos cache cache' -> cache ⊆ cache'.
Proof.
  intros H. apply map_subseteq_spec. intros i b. by apply (filled_keeps geos).
Qed.

Lemma cachedBoundingBox_fills geos cache (g : BufferGeometry) :
  In g geos -> filledFrom geos cache (cachedBoundingBox cache g).1.
Proof.
  intros Hg. unfold cachedBoundingBox.
  destruct (cache !! geometryId g) eqn:E; simpl; [apply filled_refl|].
  intros i. destruct (decide (geometryId g = i)) as [<-|Hne].
  - right. split; [done|]. exists g. by rewrite lookup_insert_eq.
  - left. by rewrite lookup_insert_ne.
Qed.

Lemma cachedBoundingBox_cached cache (g : BufferGeometry) :
  is_Some ((cachedBoundingBox cache g).1 !! geometryId g).
Proof.
  unfold cachedBoundingBox.
  destruct (cache !! geometryId g) eqn:E; simpl.
  - by rewrite E.
  - by rewrite lookup_insert_eq.
Qed.

Lemma allCached_keeps geos (l : list Object3D) cache cache' :
  filledFrom geos cache cache' -> allCached l cache -> allCached l cache'.
Proof.
  intros H Hl g Hg. destruct (Hl g Hg) as [b Hb]. exists b.
  by apply (filled_keeps geos cache).
Qed.

Lemma allCached_app (l k : list Object3D) cache :
  allCached l cache -> allCached k cache -> allCached (l ++ k) cache.
Proof.
  intros Hl Hk g Hg. unfold geometriesOf in Hg. rewrite flat_map_app in Hg.
  apply in_app_or in Hg as [Hg|Hg]; [by apply Hl | by apply Hk].
Qed.

(** The cache that [expandByObject] leaves: entries were filled in, for
    geometries of the object and of the objects below it, and each of
    these geometries now has one. *)
Lemma expandByObject_cache (o : Object3D) cache matrices box w :
  filledFrom (geometriesOf (traverse o)) cache
    (expandByObject cache matrices box w o).1.1
  /\ allCached (traverse o) (expandByObject cache matrices box w o).1.1.
Proof.
  revert cache matrices box w.
  induction o as [n c g m p ch IH] using Object3D_forall_ind.
  intros cache matrices box w.
  change (expandByObject cache matrices box w (mkObject3D n c g m p ch))
    with (fold_left
            (fun a child => expandByObject a.1.1 a.1.2 a.2 (v_add w p) child) ch
            (match g with
             | None => (cache, <[n := mkMatrices p (v_add w p)]> matrices, box)
             | Some geo =>
                 let '(cache1, b) := cachedBoundingBox cache geo in
                 (cache1, <[n := mkMatrices p (v_add w p)]> matrices,
                  union3 box (applyTranslation b (v_add w p)))
             end)).
  set (acc := match g with
              | None => (cache, <[n := mkMatrices p (v_add w p)]> matrices, box)
              | Some geo => _
              end).
  set (o := mkObject3D n c g m p ch).
  assert (Hacc : filledFrom (geometriesOf [o]) cache acc.1.1
                 /\ allCached [o] acc.1.1).
  { subst acc o. destruct g as [geo|]; simpl.
    - pose proof (cachedBoundingBox_fills [geo] cache geo) as H.
      pose proof (cachedBoundingBox_cached cache geo) as H'.
      destruct (cachedBoundingBox cache geo) as [cache1 b]. simpl in *.
      split; [apply H; by left|]. intros g0 [<-|[]]. exact H'.
    - split; [apply filled_refl|]. intros g0 []. }
  assert (Hfold : forall acc0,
            filledFrom (geometriesOf (flat_map traverse ch)) acc0.1.1
              (fold_left
                 (fun a child => expandByObject a.1.1 a.1.2 a.2 (v_add w p) child)
                 ch acc0).1.1
            /\ allCached (flat_map traverse ch)
                 (fold_left
                    (fun a child =>
                       expandByObject a.1.1 a.1.2 a.2 (v_add w p) child)
                    ch acc0).1.1).
  { clear acc Hacc. induction IH as [|x l Hx Hl IHl]; intros acc0; simpl.
    - split; [apply filled_refl|]. intros g0 [].
    - destruct (Hx acc0.1.1 acc0.1.2 acc0.2 (v_add w p)) as (Hx1 & Hx2).
      destruct (IHl (expandByObject acc0.1.1 acc0.1.2 acc0.2 (v_add w p) x))
        as (Hl1 & Hl2).
      split.
      + eapply filled_trans.
        * eapply filled_mono; [|exact Hx1].
          intros g0 Hg0. unfold geometriesOf. rewrite flat_map_app.
          apply in_or_app. by left.
        * eapply filled_mono; [|exact Hl1].
          intros g0 Hg0. unfold geometriesOf. rewrite flat_map_app.
          apply in_or_app. by right.
      + apply allCached_app; [|exact Hl2].
        by apply (allCached_keeps _ _ _ _ Hl1). }
  destruct Hacc as (Ha1 & Ha2). destruct (Hfold acc) as (Hf1 & Hf2).
  change (traverse o) with ([o] ++ flat_map traverse ch). split.
  - eapply filled_trans.
    + eapply filled_mono; [|exact Ha1].
      intros g0 Hg0. unfold geometriesOf. rewrite flat_map_app.
      apply in_or_app. by left.
    + eapply filled_mono; [|exact Hf1].
      intros g0 Hg0. unfold geometriesOf. rewrite flat_map_app.
      apply in_or_app. by right.
  - apply allCached_app; [|exact Hf2].
    by apply (allCached_keeps _ _ _ _ Hf1).
Qed.

End CacheRefresh.

(** *** World matrices *)

(** The world matrices that [expandByObject] leaves are those of
    [expandedWorlds]. *)
Lemma expandByObject_worlds (o : Object3D) (cache : gmap nat Box3)
    (matrices : gmap nat Matrices) (box : Box3) (w : Vector3) :
  (expandByObject cache matrices box w o).1.2 = expandedWorlds matrices w o.
Proof.
  revert cache matrices box w.
  induction o as [n c g m p ch IH] using Object3D_forall_ind.
  intros cache matrices box w. simpl.
  set (acc := match g with
              | None => (cache, <[n := mkMatrices p (v_add w p)]> matrices, box)
              | Some geo => _
              end).
  assert (Hacc : acc.1.2 = <[n := mkMatrices p (v_add w p)]> matrices).
  { subst acc. destruct g as [geo|]; [|done].
    by destruct (cachedBoundingBox cache geo). }
  rewrite <- Hacc. clearbody acc. clear Hacc. revert acc.
  induction IH as [|x l Hx Hl IHl]; intros acc; simpl; [done|].
  rewrite IHl. by rewrite Hx.
Qed.

(** *** The traversal *)

Lemma traverseFrom_objects (o : Object3D) (parent : option nat) :
  List.map snd (traverseFrom parent o) = traverse o.
Proof.
  revert parent. induction o as [n c g m p ch IH] using Object3D_forall_ind.
  intros parent. simpl. f_equal.
  generalize (Some n). intros parent'.
  induction IH as [|x l Hx Hl IHl]; simpl; [done|].
  by rewrite map_app, Hx, IHl.
Qed.

Lemma traverse_closed (o n x : Object3D) :
  In n (traverse o) -> In x (traverse n) -> In x (traverse o).
Proof.
  induction o as [k c g m p ch IH] using Object3D_forall_ind.
  simpl. intros [<-|Hn] Hx; [exact Hx|]. right.
  apply in_flat_map in Hn as (y & Hy & Hny). apply in_flat_map. exists y.
  split; [done|]. rewrite List.Forall_forall in IH. by apply IH.
Qed.

Lemma sceneTraverse_objects (sc : Scene) :
  List.map snd (sceneTraverse sc) = sceneObjects sc.
Proof.
  unfold sceneTraverse, sceneObjects.
  induction (sceneChildren sc) as [|x l IH]; simpl; [done|].
  by rewrite map_app, traverseFrom_objects, IH.
Qed.

Lemma sceneObjects_closed (sc : Scene) (n x : Object3D) :
  In n (sceneObjects sc) -> In x (traverse n) -> In x (sceneObjects sc).
Proof.
  unfold sceneObjects. intros Hn Hx.
  apply in_flat_map in Hn as (c & Hc & Hin). apply in_flat_map. exists c.
  split; [done|]. by apply (traverse_closed c n x).
Qed.

Lemma sceneTraverse_subtree (sc : Scene) (wo : option nat * Object3D)
    (x : Object3D) :
  In wo (sceneTraverse sc) -> In x (traverse wo.2) -> In x (sceneObjects sc).
Proof.
  intros Hwo. apply sceneObjects_closed. rewrite <- sceneTraverse_objects.
  by apply in_map.
Qed.

(** What is visited from objects of the scene is in the scene. *)
Lemma visited_sceneObjects (sc : Scene) (objects : list (option nat * Object3D))
    (x : Object3D) :
  (forall wo, In wo objects -> In wo (sceneTraverse sc)) ->
  In x (visited objects) -> In x (sceneObjects sc).
Proof.
  intros Hsub Hx. apply in_flat_map in Hx as (wo & Hwo & Hx).
  apply (sceneTraverse_subtree sc wo x); [by apply Hsub | done].
Qed.

Lemma geometriesOf_In (l : list Object3D) (g : BufferGeometry) :
  In g (geometriesOf l) <-> exists o, In o l /\ geometry o = Some g.
Proof.
  unfold geometriesOf. rewrite in_flat_map. split.
  - intros (o & Ho & Hg). exists o. split; [done|].
    destruct (geometry o); simpl in Hg; [|done]. destruct Hg as [->|[]]. done.
  - intros (o & Ho & Hg). exists o. split; [done|]. rewrite Hg. by left.
Qed.

Lemma geometriesOf_incl (l k : list Object3D) (g : BufferGeometry) :
  (forall o, In o l -> In o k) -> In g (geometriesOf l) -> In g (geometriesOf k).
Proof.
  intros Hsub Hg. apply geometriesOf_In in Hg as (o & Ho & Hg).
  apply geometriesOf_In. exists o. auto.
Qed.

Lemma refreshed_is_Some geos (cache cache' : gmap nat Box3) (i : nat) :
  refreshedFrom geos cache cache' -> is_Some (cache !! i) -> is_Some (cache' !! i).
Proof.
  intros H Hi. destruct (H i) as [E|(g & _ & _ & E)]; rewrite E; [done|by eexists].
Qed.

(** The cache that the loop of [focusOnModel] leaves, however far it
    gets. *)
Lemma focusBounds_refreshes (objects : list (option nat * Object3D))
    (cache : gmap nat Box3) (matrices : gmap nat Matrices) (box : Box3) :
  refreshedFrom (geometriesOf (visited objects)) cache
    (focusBounds cache matrices box objects).1.1.
Proof.
  revert cache matrices box.
  induction objects as [|[parent o] rest IH]; intros cache matrices box.
  - apply refreshed_refl.
  - cbn [focusBounds]. destruct (geometry o) as [g|] eqn:Hg;
      [|apply refreshed_refl].
    destruct (expandByObject_cache o
                (<[geometryId g := setFromPoints (positionAttribute g)]> cache)
                matrices EmptyBox3 (parentMatrixWorld matrices parent))
      as (Hexp & _).
    destruct (expandByObject _ matrices EmptyBox3 _ o)
      as [[cache2 matrices2] objectBox]. simpl in Hexp.
    assert (Hhead : forall g0, In g0 (geometriesOf (traverse o)) ->
                      In g0 (geometriesOf (visited ((parent, o) :: rest)))).
    { intros g0. apply geometriesOf_incl. intros x Hx.
      unfold visited. simpl. apply in_or_app. by left. }
    eapply refreshed_trans; [|eapply refreshed_trans].
    + apply (refreshed_insert _ cache g). apply Hhead.
      apply geometriesOf_In. exists o. split; [|done].
      rewrite traverse_unfold. by left.
    + apply (refreshed_mono (geometriesOf (traverse o))); [exact Hhead|].
      apply filled_refreshed, Hexp.
    + apply (refreshed_mono (geometriesOf (visited rest))); [|apply IH].
      intros g0. apply geometriesOf_incl. intros x Hx.
      unfold visited. simpl. apply in_or_app. by right.
Qed.

(** An entry that is there when the loop of [focusOnModel] starts is kept
    or replaced by the box recomputed for one of the objects of the loop. *)
Lemma focusBounds_keeps (objects : list (option nat * Object3D))
    (cache : gmap nat Box3) (matrices : gmap nat Matrices) (box : Box3)
    (i : nat) (b : Box3) :
  cache !! i = Some b ->
  (focusBounds cache matrices box objects).1.1 !! i = Some b
  \/ exists g, In g (geometriesOf (List.map snd objects)) /\ geometryId g = i
               /\ (focusBounds cache matrices box objects).1.1 !! i
                  = Some (setFromPoints (positionAttribute g)).
Proof.
  revert cache matrices box b.
  induction objects as [|[parent o] rest IH]; intros cache matrices box b Hi.
  - by left.
  - cbn [focusBounds]. destruct (geometry o) as [g|] eqn:Hg; [|by left].
    destruct (expandByObject_cache o
                (<[geometryId g := setFromPoints (positionAttribute g)]> cache)
                matrices EmptyBox3 (parentMatrixWorld matrices parent))
      as (Hexp & _).
    destruct (expandByObject _ matrices EmptyBox3 _ o)
      as [[cache2 matrices2] objectBox]. simpl in Hexp.
    assert (Hrest : forall g0, In g0 (geometriesOf (List.map snd rest)) ->
                      In g0 (geometriesOf (List.map snd ((parent, o) :: rest)))).
    { intros g0. apply geometriesOf_incl. intros x Hx. by right. }
    destruct (decide (geometryId g = i)) as [E|E].
    + assert (H2 : cache2 !! i = Some (setFromPoints (positionAttribute g))).
      { apply (filled_keeps _ _ _ _ _ Hexp). subst i. apply lookup_insert_eq. }
      right.
      destruct (IH cache2 matrices2 (union3 box objectBox) _ H2)
        as [H|(g0 & Hg0 & Hid & H)].
      * exists g. split; [|done]. apply geometriesOf_In. exists o.
        split; [by left|done].
      * exists g0. split; [by apply Hrest|done].
    + assert (H2 : cache2 !! i = Some b).
      { apply (filled_keeps _ _ _ _ _ Hexp). by rewrite lookup_insert_ne. }
      destruct (IH cache2 matrices2 (union3 box objectBox) _ H2)
        as [H|(g0 & Hg0 & Hid & H)]; [by left|right].
      exists g0. split; [by apply Hrest|done].
Qed.

(** When every object of the loop has a geometry, the loop of
    [focusOnModel] runs to its end: every geometry it came across has a
    cached box, and the geometry of each object of the loop has the box
    that was recomputed for it. *)
Lemma focusBounds_complete (objects : list (option nat * Object3D))
    (cache : gmap nat Box3) (matrices : gmap nat Matrices) (box : Box3) :
  (forall wo, In wo objects -> is_Some (geometry wo.2)) ->
  exists cache' box',
    focusBounds cache matrices box objects
    = (cache', refreshedWorlds matrices objects, Some box')
    /\ allCached (visited objects) cache'
    /\ recomputed (List.map snd objects) cache'.
Proof.
  revert cache matrices box.
  induction objects as [|[parent o] rest IH]; intros cache matrices box Hall.
  - eexists _, _. split; [reflexivity|]. split; intros g [].
  - cbn [focusBounds]. destruct (Hall (parent, o)) as [g Hg]; [by left|].
    simpl in Hg. rewrite Hg.
    pose proof (expandByObject_cache o
                (<[geometryId g := setFromPoints (positionAttribute g)]> cache)
                matrices EmptyBox3 (parentMatrixWorld matrices parent))
      as (Hexp & Hcached).
    pose proof (expandByObject_worlds o
                (<[geometryId g := setFromPoints (positionAttribute g)]> cache)
                matrices EmptyBox3 (parentMatrixWorld matrices parent)) as Hw.
    destruct (expandByObject _ matrices EmptyBox3 _ o)
      as [[cache2 matrices2] objectBox]. simpl in Hexp, Hcached, Hw. subst matrices2.
    destruct (IH cache2 (expandedWorlds matrices (parentMatrixWorld matrices parent) o)
                (union3 box objectBox))
      as (cache' & box' & Hrun & Hall' & Hrec).
    { intros wo Hwo. apply Hall. by right. }
    exists cache', box'. split; [exact Hrun|].
    pose proof (focusBounds_refreshes rest cache2
                  (expandedWorlds matrices (parentMatrixWorld matrices parent) o)
                  (union3 box objectBox)) as Hrefr.
    rewrite Hrun in Hrefr. simpl in Hrefr.
    split.
    + unfold visited. simpl. apply allCached_app; [|exact Hall'].
      intros g0 Hg0. apply (refreshed_is_Some _ _ _ _ Hrefr). by apply Hcached.
    + intros g0 Hg0. apply geometriesOf_In in Hg0 as (x & [<-|Hx] & Hgx).
      * simpl in Hgx. rewrite Hg in Hgx. injection Hgx as <-.
        assert (H2 : cache2 !! geometryId g
                     = Some (setFromPoints (positionAttribute g))).
        { apply (filled_keeps _ _ _ _ _ Hexp). apply lookup_insert_eq. }
        pose proof (focusBounds_keeps rest cache2
                      (expandedWorlds matrices (parentMatrixWorld matrices parent) o)
                      (union3 box objectBox) _ _ H2) as Hk.
        rewrite Hrun in Hk. simpl in Hk.
        destruct Hk as [Hk|(g1 & Hg1 & Hid & Hk)].
        -- exists g. split; [|done]. apply geometriesOf_In. exists o.
           split; [by left|done].
        -- exists g1. split; [|done]. revert Hg1. apply geometriesOf_incl.
           intros y Hy. by right.
      * destruct (Hrec g0) as (g1 & Hg1 & Hid & Hk).
        { apply geometriesOf_In. by exists x. }
        exists g1. split; [|done]. revert Hg1. apply geometriesOf_incl.
        intros y Hy. by right.
Qed.

(** The first traversal of [centerModel]: entries of the cache are filled
    in where there was none, every geometry it came across has a cached
    box, and the world matrices are those of one [expandByObject] per
    object. *)
Lemma centerBounds_complete (objects : list (option nat * Object3D))
    (cache : gmap nat Box3) (matrices : gmap nat Matrices) :
  exists cache' box',
    centerBounds cache matrices objects
    = (cache', refreshedWorlds matrices objects, box')
    /\ filledFrom (geometriesOf (visited objects)) cache cache'
    /\ allCached (visited objects) cache'.
Proof.
  unfold centerBounds, refreshedWorlds. generalize EmptyBox3 as box.
  revert cache matrices.
  induction objects as [|[parent o] rest IH]; intros cache matrices box.
  - eexists _, _. split; [reflexivity|]. split; [apply filled_refl|].
    intros g [].
  - cbn [fold_left fst snd].
    pose proof (expandByObject_cache o cache matrices box
                  (parentMatrixWorld matrices parent)) as (Hexp & Hcached).
    pose proof (expandByObject_worlds o cache matrices box
                  (parentMatrixWorld matrices parent)) as Hw.
    destruct (expandByObject cache matrices box _ o)
      as [[cache1 matrices1] box1]. simpl in Hexp, Hcached, Hw. subst matrices1.
    destruct (IH cache1
                (expandedWorlds matrices (parentMatrixWorld matrices parent) o)
                box1)
      as (cache' & box' & Hrun & Hfill & Hall).
    exists cache', box'. cbn [fst snd] in *. split; [exact Hrun|]. split.
    + eapply filled_trans.
      * eapply filled_mono; [|exact Hexp].
        intros g0. apply geometriesOf_incl. intros x Hx.
        unfold visited. simpl. apply in_or_app. by left.
      * eapply filled_mono; [|exact Hfill].
        intros g0. apply geometriesOf_incl. intros x Hx.
        unfold visited. simpl. apply in_or_app. by right.
    + unfold visited. simpl. apply allCached_app; [|exact Hall].
      by apply (allCached_keeps _ _ _ _ Hfill).
Qed.

(** [expandedWorlds] writes at the objects it visits only. *)
Lemma expandedWorlds_frame (o : Object3D) (matrices : gmap nat Matrices)
    (w : Vector3) (i : nat) :
  ~ In i (List.map objectId (traverse o)) ->
  expandedWorlds matrices w o !! i = matrices !! i.
Proof.
  revert matrices w.
  induction o as [n c g m p ch IH] using Object3D_forall_ind.
  intros matrices w Hi. simpl in Hi. simpl.
  assert (Hn : n <> i) by (intros E; apply Hi; by left).
  assert (Hch : ~ In i (List.map objectId (flat_map traverse ch)))
    by (intros E; apply Hi; by right).
  rewrite <- (lookup_insert_ne matrices n i (mkMatrices p (v_add w p)))
    by exact Hn.
  generalize (<[n := mkMatrices p (v_add w p)]> matrices). clear Hi Hn.
  induction IH as [|x l Hx Hl IHl]; intros m0; simpl; [done|].
  simpl in Hch. rewrite map_app in Hch.
  rewrite IHl by (intros E; apply Hch, in_or_app; by right).
  apply Hx. intros E. apply Hch, in_or_app. by left.
Qed.

Lemma refreshedWorlds_frame (objects : list (option nat * Object3D))
    (matrices : gmap nat Matrices) (i : nat) :
  ~ In i (List.map objectId (visited objects)) ->
  refreshedWorlds matrices objects !! i = matrices !! i.
Proof.
  unfold refreshedWorlds. revert matrices.
  induction objects as [|[parent o] rest IH]; intros matrices Hi; simpl; [done|].
  unfold visited in Hi. simpl in Hi. rewrite map_app in Hi.
  rewrite IH by (intros E; apply Hi, in_or_app; by right).
  apply expandedWorlds_frame. intros E. apply Hi, in_or_app. by left.
Qed.

(** The world matrices that the loop of [focusOnModel] leaves, however far
    it gets, differ from those before at visited objects only. *)
Lemma focusBounds_worlds_frame (objects : list (option nat * Object3D))
    (cache : gmap nat Box3) (matrices : gmap nat Matrices) (box : Box3)
    (i : nat) :
  ~ In i (List.map objectId (visited objects)) ->
  (focusBounds cache matrices box objects).1.2 !! i = matrices !! i.
Proof.
  revert cache matrices box.
  induction objects as [|[parent o] rest IH]; intros cache matrices box Hi;
    [done|].
  cbn [focusBounds]. destruct (geometry o) as [g|]; [|done].
  pose proof (expandByObject_worlds o
                (<[geometryId g := setFromPoints (positionAttribute g)]> cache)
                matrices EmptyBox3 (parentMatrixWorld matrices parent)) as Hw.
  destruct (expandByObject _ matrices EmptyBox3 _ o)
    as [[cache2 matrices2] objectBox]. simpl in Hw. subst matrices2.
  unfold visited in Hi. simpl in Hi. rewrite map_app in Hi.
  rewrite IH by (intros E; apply Hi, in_or_app; by right).
  apply expandedWorlds_frame. intros E. apply Hi, in_or_app. by left.
Qed.

(** *** Parents and subtrees *)

Lemma NoDup_map_inj {A B} (f : A -> B) (l : list A) (a b : A) :
  List.NoDup (List.map f l) -> In a l -> In b l -> f a = f b -> a = b.
Proof.
  induction l as [|x l IH]; simpl; intros Hnd Ha Hb E; [done|].
  inversion Hnd as [|? ? Hx Hl]; subst.
  destruct Ha as [->|Ha], Hb as [->|Hb]; [done| | |by apply IH].
  - destruct Hx. rewrite E. by apply in_map.
  - destruct Hx. rewrite <- E. by apply in_map.
Qed.

(** The pairs of a traversal: the root with the parent given, and every
    other object with the object it is a child of. *)
Lemma traverseFrom_parent (o : Object3D) (parent q : option nat) (x : Object3D) :
  In (q, x) (traverseFrom parent o) ->
  (q = parent /\ x = o)
  \/ exists y, In y (traverse o) /\ q = Some (objectId y) /\ In x (children y).
Proof.
  revert parent. induction o as [n c g m p ch IH] using Object3D_forall_ind.
  intros parent. simpl. intros [[= <- <-]|Hin]; [by left|]. right.
  apply in_flat_map in Hin as (k & Hk & Hin).
  rewrite List.Forall_forall in IH.
  destruct (IH k Hk (Some n) Hin) as [[-> ->]|(y & Hy & -> & Hx)].
  - exists (mkObject3D n c g m p ch). split; [by left|]. by split.
  - exists y. split; [|by split]. right. apply in_flat_map. by exists k.
Qed.

Lemma traverseFrom_closed (o : Object3D) (parent p q : option nat)
    (a x : Object3D) :
  In (p, a) (traverseFrom parent o) -> In (q, x) (traverseFrom p a) ->
  In (q, x) (traverseFrom parent o).
Proof.
  revert parent. induction o as [n c g m p0 ch IH] using Object3D_forall_ind.
  intros parent. simpl. intros [[= <- <-]|Hin] Hx; [exact Hx|]. right.
  apply in_flat_map in Hin as (k & Hk & Hin). apply in_flat_map. exists k.
  split; [done|]. rewrite List.Forall_forall in IH. by apply IH.
Qed.

Lemma sceneTraverse_closed (sc : Scene) (p q : option nat) (a x : Object3D) :
  In (p, a) (sceneTraverse sc) -> In (q, x) (traverseFrom p a) ->
  In (q, x) (sceneTraverse sc).
Proof.
  unfold sceneTraverse. intros Ha Hx.
  apply in_flat_map in Ha as (k & Hk & Ha). apply in_flat_map. exists k.
  split; [done|]. by apply (traverseFrom_closed k None p q a x).
Qed.

Lemma sceneTraverse_parent (sc : Scene) (i : nat) (x : Object3D) :
  In (Some i, x) (sceneTraverse sc) ->
  exists y, In y (sceneObjects sc) /\ objectId y = i /\ In x (children y).
Proof.
  unfold sceneTraverse, sceneObjects. intros Hin.
  apply in_flat_map in Hin as (k & Hk & Hin).
  destruct (traverseFrom_parent k None (Some i) x Hin)
    as [[[=] _]|(y & Hy & [= ->] & Hx)].
  exists y. split; [|by split]. apply in_flat_map. by exists k.
Qed.

Lemma sceneTraverse_In (sc : Scene) (p : option nat) (a : Object3D) :
  In (p, a) (sceneTraverse sc) -> In a (sceneObjects sc).
Proof.
  intros Hin. rewrite <- sceneTraverse_objects.
  by apply (in_map snd _ (p, a)).
Qed.

(** In a graph of distinct identities an object is listed once, with one
    parent. *)
Lemma sceneTraverse_unique (sc : Scene) (wo wo' : option nat * Object3D) :
  distinctObjects sc ->
  In wo (sceneTraverse sc) -> In wo' (sceneTraverse sc) ->
  objectId wo.2 = objectId wo'.2 -> wo = wo'.
Proof.
  unfold distinctObjects. rewrite <- sceneTraverse_objects, map_map.
  intros Hnd. by apply (NoDup_map_inj (fun wo => objectId wo.2)).
Qed.

Lemma sceneObjects_unique (sc : Scene) (x y : Object3D) :
  distinctObjects sc ->
  In x (sceneObjects sc) -> In y (sceneObjects sc) ->
  objectId x = objectId y -> x = y.
Proof. apply NoDup_map_inj. Qed.

(** The traversal of an object of a traversal is a segment of it. *)
Lemma traverse_segment (o a : Object3D) :
  In a (traverse o) -> exists l1 l2, traverse o = l1 ++ traverse a ++ l2.
Proof.
  induction o as [n c g m p ch IH] using Object3D_forall_ind.
  simpl. intros [<-|Hin].
  - exists [], []. simpl. by rewrite app_nil_r.
  - apply in_flat_map in Hin as (k & Hk & Hin).
    rewrite List.Forall_forall in IH.
    destruct (IH k Hk Hin) as (l1 & l2 & E).
    apply in_split in Hk as (c1 & c2 & ->).
    exists (mkObject3D n c g m p (c1 ++ k :: c2) :: flat_map traverse c1 ++ l1),
           (l2 ++ flat_map traverse c2).
    rewrite flat_map_app. simpl. rewrite E.
    by rewrite <- !app_assoc.
Qed.

Lemma sceneObjects_segment (sc : Scene) (a : Object3D) :
  In a (sceneObjects sc) ->
  exists l1 l2, sceneObjects sc = l1 ++ traverse a ++ l2.
Proof.
  unfold sceneObjects. intros Hin.
  apply in_flat_map in Hin as (k & Hk & Hin).
  destruct (traverse_segment k a Hin) as (l1 & l2 & E).
  apply in_split in Hk as (c1 & c2 & ->).
  exists (flat_map traverse c1 ++ l1), (l2 ++ flat_map traverse c2).
  rewrite flat_map_app. simpl. rewrite E. by rewrite <- !app_assoc.
Qed.

Lemma subtree_distinct (sc : Scene) (a : Object3D) :
  distinctObjects sc -> In a (sceneObjects sc) ->
  List.NoDup (List.map objectId (traverse a)).
Proof.
  unfold distinctObjects. intros Hnd Ha.
  destruct (sceneObjects_segment sc a Ha) as (l1 & l2 & E).
  rewrite E, !map_app in Hnd.
  apply List.NoDup_app_remove_l in Hnd. by apply List.NoDup_app_remove_r in Hnd.
Qed.

(** No object sits below itself. *)
Lemma not_below_itself (a : Object3D) :
  List.NoDup (List.map objectId (traverse a)) -> ~ In a (descendants a).
Proof.
  rewrite traverse_unfold. simpl. intros Hnd Hin.
  inversion Hnd as [|? ? Ha _]; subst. apply Ha. by apply in_map.
Qed.

(** The parent of an object is not below it. *)
Lemma parent_outside (sc : Scene) (i : nat) (a : Object3D) :
  distinctObjects sc -> In (Some i, a) (sceneTraverse sc) ->
  ~ In i (List.map objectId (traverse a)).
Proof.
  intros Hnd Hin Hi.
  pose proof (sceneTraverse_In sc _ _ Hin) as Ha.
  destruct (sceneTraverse_parent sc i a Hin) as (y & Hy & <- & Hay).
  apply in_map_iff in Hi as (z & Hid & Hz).
  assert (z = y) as ->.
  { apply (sceneObjects_unique sc); try done.
    by apply (sceneObjects_closed sc a z). }
  apply (not_below_itself a); [by apply (subtree_distinct sc)|].
  rewrite traverse_unfold in Hz. destruct Hz as [<-|Hz].
  - unfold descendants. by apply In_flat_traverse_self.
  - unfold descendants in *. apply in_flat_map in Hz as (k & Hk & Hz).
    apply in_flat_map. exists k. split; [done|].
    apply (traverse_closed k y a Hz).
    rewrite traverse_unfold. right. unfold descendants.
    by apply In_flat_traverse_self.
Qed.

(** *** The world matrices after a bounds computation *)

Lemma parentMatrixWorld_agree (m m' : gmap nat Matrices) (q : option nat) :
  (forall i, q = Some i -> m' !! i = m !! i) ->
  parentMatrixWorld m' q = parentMatrixWorld m q.
Proof.
  destruct q as [i|]; simpl; [|done]. intros H. by rewrite (H i).
Qed.

Lemma fold_expandedWorlds_frame (l : list Object3D) (m : gmap nat Matrices)
    (w : Vector3) (i : nat) :
  ~ In i (List.map objectId (flat_map traverse l)) ->
  fold_left (fun m child => expandedWorlds m w child) l m !! i = m !! i.
Proof.
  revert m. induction l as [|x l IH]; intros m Hi; simpl; [done|].
  simpl in Hi. rewrite map_app in Hi.
  rewrite IH by (intros E; apply Hi, in_or_app; by right).
  apply expandedWorlds_frame. intros E. apply Hi, in_or_app. by left.
Qed.

Lemma traverseFrom_In (o : Object3D) (parent q : option nat) (x : Object3D) :
  In (q, x) (traverseFrom parent o) -> In x (traverse o).
Proof.
  intros Hin. rewrite <- (traverseFrom_objects o parent).
  by apply (in_map snd _ (q, x)).
Qed.

(** One [expandByObject] on an object of distinct identities whose parent
    is not below it: every object visited ends with the world matrix of
    its parent composed with its own position. *)
Lemma expandedWorlds_consistent (o : Object3D) (matrices : gmap nat Matrices)
    (parent : option nat) :
  List.NoDup (List.map objectId (traverse o)) ->
  (forall i, parent = Some i -> ~ In i (List.map objectId (traverse o))) ->
  forall q x,
    In (q, x) (traverseFrom parent o) ->
    expandedWorlds matrices (parentMatrixWorld matrices parent) o !! objectId x
    = Some (mkMatrices (position x)
              (v_add
                 (parentMatrixWorld
                    (expandedWorlds matrices (parentMatrixWorld matrices parent) o)
                    q)
                 (position x))).
Proof.
  revert matrices parent.
  induction o as [n c g mt p ch IH] using Object3D_forall_ind.
  intros matrices parent Hnd Hpar q x Hin.
  change (traverse (mkObject3D n c g mt p ch))
    with (mkObject3D n c g mt p ch :: flat_map traverse ch) in Hnd, Hpar.
  simpl in Hnd, Hpar. inversion Hnd as [|? ? Hn Hch]; subst.
  set (world := v_add (parentMatrixWorld matrices parent) p).
  change (expandedWorlds matrices (parentMatrixWorld matrices parent)
            (mkObject3D n c g mt p ch))
    with (fold_left (fun m child => expandedWorlds m world child) ch
            (<[n := mkMatrices p world]> matrices)).
  assert (Hinner : forall m,
            parentMatrixWorld m (Some n) = world ->
            forall q x,
              In (q, x) (flat_map (traverseFrom (Some n)) ch) ->
              fold_left (fun m child => expandedWorlds m world child) ch m
                !! objectId x
              = Some (mkMatrices (position x)
                        (v_add
                           (parentMatrixWorld
                              (fold_left
                                 (fun m child => expandedWorlds m world child)
                                 ch m)
                              q)
                           (position x)))).
  { clear Hin q x Hpar Hnd. revert Hn Hch.
    induction IH as [|k l Hk Hl IHl]; intros Hn Hch m Hw q x Hin; [done|].
    simpl in Hn, Hch, Hin. rewrite map_app in Hn, Hch. simpl.
    assert (Hnk : ~ In n (List.map objectId (traverse k)))
      by (intros E; apply Hn, in_or_app; by left).
    assert (Hnl : ~ In n (List.map objectId (flat_map traverse l)))
      by (intros E; apply Hn, in_or_app; by right).
    assert (Hw1 : parentMatrixWorld (expandedWorlds m world k) (Some n) = world).
    { rewrite <- Hw at 2. apply parentMatrixWorld_agree. intros i [= <-].
      by apply expandedWorlds_frame. }
    apply in_app_or in Hin as [Hin|Hin].
    - assert (Hxk : In (objectId x) (List.map objectId (traverse k)))
        by (apply in_map; by apply (traverseFrom_In k (Some n) q)).
      rewrite fold_expandedWorlds_frame
        by (by apply (NoDup_app_disjoint _ _ _ Hch)).
      rewrite <- Hw at 1 2.
      assert (Hndk : List.NoDup (List.map objectId (traverse k)))
        by (by apply List.NoDup_app_remove_r in Hch).
      assert (Hpk : forall i, Some n = Some i ->
                      ~ In i (List.map objectId (traverse k)))
        by (by intros i [= <-]).
      rewrite (Hk m (Some n) Hndk Hpk q x Hin).
      rewrite Hw. f_equal. f_equal. f_equal. symmetry.
      apply parentMatrixWorld_agree. intros i ->.
      apply fold_expandedWorlds_frame.
      destruct (traverseFrom_parent k (Some n) (Some i) x Hin)
        as [[[= ->] _]|(y & Hy & [= ->] & _)]; [exact Hnl|].
      apply (NoDup_app_disjoint _ _ _ Hch). by apply in_map.
    - apply IHl; try done. by apply List.NoDup_app_remove_l in Hch. }
  destruct Hin as [[= <- <-]|Hin].
  - simpl. rewrite fold_expandedWorlds_frame by exact Hn.
    rewrite lookup_insert_eq. f_equal. f_equal. unfold world. f_equal. symmetry.
    apply parentMatrixWorld_agree. intros i ->.
    rewrite fold_expandedWorlds_frame
      by (intros E; apply (Hpar i eq_refl); by right).
    apply lookup_insert_ne. intros <-. apply (Hpar n eq_refl). by left.
  - apply Hinner; [simpl; by rewrite lookup_insert_eq|exact Hin].
Qed.

(** After one [expandByObject] per object of a list of objects of the
    scene, the world matrices differ from those before at visited objects
    only, and every visited object has the world matrix of its parent
    composed with its own position. *)
Lemma refreshedWorlds_refreshes (sc : Scene)
    (objects : list (option nat * Object3D)) (matrices : gmap nat Matrices) :
  distinctObjects sc ->
  (forall wo, In wo objects -> In wo (sceneTraverse sc)) ->
  worldsRefreshed sc (visited objects) matrices
    (refreshedWorlds matrices objects).
Proof.
  intros Hnd. revert matrices.
  induction objects as [|[p a] rest IH]; intros matrices Hsub.
  { split; [done|]. intros q x _ []. }
  split; [intros i; apply refreshedWorlds_frame|].
  assert (Hpa : In (p, a) (sceneTraverse sc)) by (apply Hsub; by left).
  assert (Hrest : forall wo, In wo rest -> In wo (sceneTraverse sc))
    by (intros wo Hwo; apply Hsub; by right).
  pose proof (sceneTraverse_In sc p a Hpa) as Ha.
  destruct (IH (expandedWorlds matrices (parentMatrixWorld matrices p) a) Hrest)
    as (Hframe & Hvalues).
  change (refreshedWorlds matrices ((p, a) :: rest))
    with (refreshedWorlds
            (expandedWorlds matrices (parentMatrixWorld matrices p) a) rest).
  intros q x Hqx Hx.
  destruct (in_dec Nat.eq_dec (objectId x)
              (List.map objectId (visited rest))) as [Hv|Hv].
  - apply Hvalues; [exact Hqx|].
    apply in_map_iff in Hv as (x' & Hid & Hx').
    assert (x' = x) as <-; [|exact Hx'].
    apply (sceneObjects_unique sc); try done.
    + by apply (visited_sceneObjects sc rest).
    + by apply (sceneTraverse_In sc q).
  - assert (Hxa : In x (traverse a)).
    { unfold visited in Hx. simpl in Hx. apply in_app_or in Hx as [Hx|Hx];
        [exact Hx|]. destruct Hv. by apply in_map. }
    assert (Hin : In (q, x) (traverseFrom p a)).
    { rewrite <- (traverseFrom_objects a p) in Hxa.
      apply in_map_iff in Hxa as ([q' x'] & Hx' & Hin). simpl in Hx'. subst x'.
      assert ((q', x) = (q, x)) as <-; [|exact Hin].
      apply (sceneTraverse_unique sc); try done.
      by apply (sceneTraverse_closed sc p q' a x). }
    rewrite (Hframe _ Hv).
    rewrite (expandedWorlds_consistent a matrices p) with (q := q);
      [|by apply (subtree_distinct sc)
       |intros i ->; by apply (parent_outside sc)
       |exact Hin].
    f_equal. f_equal. f_equal. symmetry.
    apply parentMatrixWorld_agree. intros i ->.
    apply Hframe. intros Hi. apply Hv.
    apply in_map_iff in Hi as (y & Hid & Hy).
    destruct (sceneTraverse_parent sc i x Hqx) as (y' & Hy' & Hid' & Hxy).
    assert (y' = y) as ->.
    { apply (sceneObjects_unique sc); try done; [|congruence].
      by apply (visited_sceneObjects sc rest). }
    apply in_map. apply in_flat_map in Hy as (wo & Hwo & Hy).
    apply in_flat_map. exists wo. split; [done|].
    apply (traverse_closed wo.2 y x Hy).
    rewrite traverse_unfold. right. unfold descendants.
    by apply In_flat_traverse_self.
Qed.

(** *** The two queries *)

(** The stores that [focusOnModel] leaves are those of its loop, however
    the call ends; the scene is as before. *)
Lemma focusOnModel_caches (s : SceneManager) (sc : Scene) :
  scene s = Some sc ->
  scene (state_of (focusOnModel s)) = scene s
  /\ boundingBoxes (state_of (focusOnModel s))
     = (focusBounds (boundingBoxes s) (objectMatrices s) EmptyBox3
          (focusObjects sc)).1.1
  /\ objectMatrices (state_of (focusOnModel s))
     = (focusBounds (boundingBoxes s) (objectMatrices s) EmptyBox3
          (focusObjects sc)).1.2.
Proof.
  intros Hsc. unfold focusOnModel, focusObjects. rewrite Hsc.
  destruct (List.filter _ (sceneTraverse sc)) as [|wo l]; [simpl; done|].
  change (Nat.eqb (length (wo :: l)) 0) with false. cbv iota.
  destruct (focusBounds _ _ _ _) as [[cache matrices] [box|]]; simpl;
    [|by rewrite Hsc].
  unfold controls_target_set, controls_update. simpl.
  destruct (controls s); simpl; by rewrite Hsc.
Qed.

(** The stores that [centerModel] leaves are those of its first
    traversal. *)
Lemma centerModel_caches (s : SceneManager) (sc : Scene) :
  scene s = Some sc ->
  boundingBoxes (state_of (centerModel s))
  = (centerBounds (boundingBoxes s) (objectMatrices s) (centerObjects sc)).1.1
  /\ objectMatrices (state_of (centerModel s))
     = (centerBounds (boundingBoxes s) (objectMatrices s) (centerObjects sc)).1.2.
Proof.
  intros Hsc. unfold centerModel, centerObjects. rewrite Hsc.
  destruct (centerBounds _ _ _) as [[cache matrices] box]. simpl.
  destruct (Nat.eqb _ 0); simpl; [done|].
  unfold controls_target_set, controls_update. simpl.
  by destruct (controls s).
Qed.

(** C5 fails as worded: framing the viewport that holds one cube stores a
    bounding box on the cube's geometry, which had none. *)
Lemma focusOnModel_writes_a_cached_box : ~ boundsQueryReadOnly viewportWithCube.
Proof.
  intros (_ & H & _). apply (f_equal (fun m => m !! 201)) in H.
  vm_compute in H. discriminate H.
Qed.

(** C5, amended.  In a scene of distinct identities, the bounds
    computations write cached bounding boxes and cached transform matrices,
    and nothing else.

    [focusOnModel] leaves the scene as it is: the graph, every position and
    all vertex data.  However it ends, the cache of boxes differs from the
    one before only by boxes computed from the vertices of geometries of
    visited objects (the objects that pass the filter and all below them),
    and the matrices differ at visited objects only.  When every object
    that passes has a geometry, every geometry of a visited object has a
    cached box afterwards, the geometry of every object that passes has the
    box recomputed from vertices, and every visited object has its position
    as its matrix and the world matrix of its parent composed with its
    position as its world matrix.

    The first traversal of [centerModel] leaves the stores that the call
    ends with: boxes were filled in where a geometry of a visited object
    had none, no box was overwritten, every geometry of a visited object
    has one, and the matrices were refreshed as by [focusOnModel], from the
    positions the objects had before the second traversal moved them. *)
Theorem bounds_queries_refresh_caches_only (s : SceneManager) (sc : Scene) :
  scene s = Some sc -> distinctObjects sc ->
  (scene (state_of (focusOnModel s)) = scene s
   /\ refreshedFrom (geometriesOf (visited (focusObjects sc)))
        (boundingBoxes s) (boundingBoxes (state_of (focusOnModel s)))
   /\ (forall i, ~ In i (List.map objectId (visited (focusObjects sc))) ->
         objectMatrices (state_of (focusOnModel s)) !! i = objectMatrices s !! i)
   /\ ((forall wo, In wo (focusObjects sc) -> is_Some (geometry wo.2)) ->
       allCached (visited (focusObjects sc))
         (boundingBoxes (state_of (focusOnModel s)))
       /\ recomputed (List.map snd (focusObjects sc))
            (boundingBoxes (state_of (focusOnModel s)))
       /\ worldsRefreshed sc (visited (focusObjects sc))
            (objectMatrices s) (objectMatrices (state_of (focusOnModel s)))))
  /\ (exists box,
        centerBounds (boundingBoxes s) (objectMatrices s) (centerObjects sc)
        = (boundingBoxes (state_of (centerModel s)),
           objectMatrices (state_of (centerModel s)), box))
  /\ filledFrom (geometriesOf (visited (centerObjects sc)))
       (boundingBoxes s) (boundingBoxes (state_of (centerModel s)))
  /\ allCached (visited (centerObjects sc))
       (boundingBoxes (state_of (centerModel s)))
  /\ worldsRefreshed sc (visited (centerObjects sc))
       (objectMatrices s) (objectMatrices (state_of (centerModel s))).
Proof.
  intros Hsc Hnd.
  assert (Hsubf : forall wo, In wo (focusObjects sc) -> In wo (sceneTraverse sc)).
  { intros wo H. by apply filter_In in H as [H _]. }
  assert (Hsubc : forall wo, In wo (centerObjects sc) -> In wo (sceneTraverse sc)).
  { intros wo H. by apply filter_In in H as [H _]. }
  destruct (focusOnModel_caches s sc Hsc) as (Hscene & -> & ->).
  destruct (centerModel_caches s sc Hsc) as (-> & ->).
  split; [split; [exact Hscene|split; [|split]]|].
  - apply focusBounds_refreshes.
  - intros i. apply focusBounds_worlds_frame.
  - intros Hall.
    destruct (focusBounds_complete (focusObjects sc) (boundingBoxes s)
                (objectMatrices s) EmptyBox3 Hall)
      as (cache' & box' & -> & Hcached & Hrec).
    split; [exact Hcached|]. split; [exact Hrec|].
    by apply refreshedWorlds_refreshes.
  - destruct (centerBounds_complete (centerObjects sc) (boundingBoxes s)
                (objectMatrices s))
      as (cache' & box' & -> & Hfill & Hcached).
    split; [by exists box'|]. split; [exact Hfill|]. split; [exact Hcached|].
    by apply refreshedWorlds_refreshes.
Qed.

(** C5, amended, on the viewport with a cube centred at (5, 3, -2):
    [focusOnModel] gives the cube's geometry a cached box and the cube the
    matrices of its position, and so does [centerModel]. *)
Lemma bounds_queries_refresh_caches_only_witness :
  scene viewportOffCentre = Some offCentreScene
  /\ distinctObjects offCentreScene
  /\ scene (state_of (focusOnModel viewportOffCentre)) = scene viewportOffCentre
  /\ is_Some (boundingBoxes (state_of (focusOnModel viewportOffCentre)) !! 201)
  /\ objectMatrices (state_of (focusOnModel viewportOffCentre)) !! 200
     = Some (mkMatrices (v3 5 3 (-2)) (v_add origin (v3 5 3 (-2))))
  /\ is_Some (boundingBoxes (state_of (centerModel viewportOffCentre)) !! 201)
  /\ objectMatrices (state_of (centerModel viewportOffCentre)) !! 200
     = Some (mkMatrices (v3 5 3 (-2)) (v_add origin (v3 5 3 (-2)))).
Proof.
  assert (Hnd : distinctObjects offCentreScene) by distinct_ids.
  destruct (bounds_queries_refresh_caches_only viewportOffCentre offCentreScene
              eq_refl Hnd)
    as ((Hscene & _ & _ & Hfocus) & _ & _ & Hcached & _ & Hworlds).
  destruct Hfocus as (Hfc & _ & _ & Hfw).
  { intros wo Hwo. vm_compute in Hwo. destruct Hwo as [<-|[]]. by eexists. }
  assert (Hcube : In (cubeMesh 200 (v3 5 3 (-2)))
                    (visited (focusObjects offCentreScene)))
    by (vm_compute; by left).
  assert (Hcube' : In (cubeMesh 200 (v3 5 3 (-2)))
                     (visited (centerObjects offCentreScene)))
    by (vm_compute; by left).
  assert (Hin : In (None, cubeMesh 200 (v3 5 3 (-2)))
                  (sceneTraverse offCentreScene))
    by (vm_compute; pick_member).
  split; [reflexivity|]. split; [exact Hnd|]. split; [exact Hscene|].
  split; [|split; [|split]].
  - apply (Hfc (cubeGeometry 201)). apply geometriesOf_In.
    by exists (cubeMesh 200 (v3 5 3 (-2))).
  - apply (Hfw None (cubeMesh 200 (v3 5 3 (-2))) Hin Hcube).
  - apply (Hcached (cubeGeometry 201)). apply geometriesOf_In.
    by exists (cubeMesh 200 (v3 5 3 (-2))).
  - apply (Hworlds None (cubeMesh 200 (v3 5 3 (-2))) Hin Hcube').
Defined.

(** * Further properties of the methods *)

(** ** [clearScene] and [reset] *)

(** X1.  [reset] first clears the scene, whatever else happens, and writes
    neither cached boxes nor world matrices.  With controls in place it
    returns normally: the scene, the disposal trace and the identity
    counter are those [clearScene] leaves, the camera looks at the controls
    target, which is as it was, [update()] ran twice and the renderer was
    cleared once.  Without controls it stops with a [TypeError] after the
    scene was cleared and the camera was put at (10, 10, 10) looking at the
    origin, and the renderer is not cleared. *)
Theorem reset_clears_then_aims_at_the_target (s : SceneManager) :
  exists s1 s',
    clearScene s = Normal s1
    /\ scene s' = scene s1
    /\ disposals s' = disposals s1
    /\ nextId s' = nextId s1
    /\ boundingBoxes s' = boundingBoxes s
    /\ objectMatrices s' = objectMatrices s
    /\ match controls s with
       | Some c =>
           reset s = Normal s'
           /\ cameraLookAt (camera s') = target c
           /\ controls s' = Some (mkControls (target c) (S (S (updates c))))
           /\ rendererClears s' = S (rendererClears s)
       | None =>
           reset s = TypeError s'
           /\ camera s' = mkCamera (v3 10 10 10) (v3 0 0 0)
           /\ controls s' = None
           /\ rendererClears s' = rendererClears s
       end.
Proof.
  destruct (controls s) as [c|] eqn:Hc.
  - destruct (reset_state s c Hc)
      as (s1 & s' & Hrun & Hreset & Hsc & Hd & Hn & Hla & Hctl & Hrc & Hbb & Hmw).
    exists s1, s'. repeat split; assumption.
  - destruct (clearScene_frame s)
      as (s1 & sc1 & Hrun & Hsc1 & Hcam & Hctl & Hrc & Hbb & Hmw).
    exists s1, (set_camera s1 (mkCamera (v3 10 10 10) (v3 0 0 0))).
    split; [exact Hrun|]. unfold reset, resetCamera. rewrite Hrun. simpl.
    rewrite (setPerspectiveView_raises s1) by congruence. simpl.
    repeat split; try assumption. congruence.
Qed.

(** X2.  [clearScene] recreates the furniture exactly when no light and no
    helper is among the children: then the children afterwards are the
    fresh default furniture and eight identities were used.  As soon as one
    light or helper is there, the children afterwards are the preserved
    ones and nothing else: a scene that has lost its lights but kept a
    helper stays without lights. *)
Theorem clearScene_recreates_furniture_only_if_all_lost
    (s : SceneManager) (sc : Scene) :
  scene s = Some sc -> distinctChildren sc ->
  exists s' sc',
    clearScene s = Normal s' /\ scene s' = Some sc'
    /\ background sc' = background sc
    /\ (keptChildren sc = [] ->
          sceneChildren sc' = defaultFurniture (nextId s)
          /\ nextId s' = nextId s + 8)
    /\ (keptChildren sc <> [] ->
          sceneChildren sc' = keptChildren sc
          /\ nextId s' = nextId s
          /\ ((forall o, In o (sceneChildren sc) -> instanceofLight (cls o) = false) ->
              forall o, In o (sceneChildren sc') -> instanceofLight (cls o) = false)).
Proof.
  intros Hsc Hnd. rewrite (clearScene_present s sc Hsc Hnd).
  destruct (keptChildren sc) as [|k ks] eqn:Hk; simpl.
  - rewrite (initSceneElements_present _ (mkScene (background sc) []))
      by (unfold swept; simpl; by rewrite Hk).
    eexists _, _. split; [reflexivity|]. simpl. split; [reflexivity|]. simpl.
    repeat split; done.
  - eexists _, _. split; [reflexivity|]. simpl. split; [reflexivity|]. simpl.
    rewrite Hk. split; [reflexivity|]. split; [done|]. intros _.
    repeat split. intros Hno o Ho. apply Hno.
    rewrite <- Hk in Ho. unfold keptChildren in Ho. apply filter_In in Ho. tauto.
Qed.

Lemma clearScene_recreates_furniture_only_if_all_lost_witness :
  scene viewportWithoutLights = Some sceneWithoutLights
  /\ distinctChildren sceneWithoutLights
  /\ exists s' sc',
       clearScene viewportWithoutLights = Normal s' /\ scene s' = Some sc'
       /\ sceneChildren sc' = [newGridHelper 0]
       /\ forall o, In o (sceneChildren sc') -> instanceofLight (cls o) = false.
Proof.
  split; [reflexivity|]. split; [distinct_ids|].
  destruct (clearScene_recreates_furniture_only_if_all_lost
              viewportWithoutLights sceneWithoutLights eq_refl)
    as (s' & sc' & Hc & Hsc' & _ & _ & Hkept).
  { distinct_ids. }
  exists s', sc'. split; [exact Hc|]. split; [exact Hsc'|].
  destruct Hkept as (Hch & _ & Hno); [discriminate|].
  split; [exact Hch|]. apply Hno.
  intros o [<-|[<-|[]]]; reflexivity.
Defined.

Lemma disposeMaterial_sound (o : Object3D) (m : Material) (r : Disposable) :
  hasMaterial o m -> In r (disposeMaterial m) -> owns o r.
Proof.
  unfold disposeMaterial. intros Hm Hin. apply in_app_or in Hin as [Hin|Hin].
  - destruct (mapTexture m) as [t|] eqn:Ht; simpl in Hin; [|done].
    destruct Hin as [<-|[]]. by apply (owns_texture o m).
  - destruct Hin as [<-|[]]. by apply owns_material.
Qed.

(** The removal callback disposes of nothing but what the object owns. *)
Lemma disposeOf_sound (o : Object3D) (r : Disposable) :
  In r (disposeOf o) -> owns o r.
Proof.
  unfold disposeOf. intros Hin. apply in_app_or in Hin as [Hin|Hin].
  - destruct (geometry o) as [g|] eqn:Hg; simpl in Hin; [|done].
    destruct Hin as [<-|[]]. by apply owns_geometry.
  - destruct (material o) as [|m|ms] eqn:Hm; simpl in Hin; [done| |].
    + apply (disposeMaterial_sound o m); [|done]. unfold hasMaterial. by rewrite Hm.
    + apply in_flat_map in Hin as (m & Hms & Hin).
      apply (disposeMaterial_sound o m); [|done]. unfold hasMaterial. by rewrite Hm.
Qed.

(** X3.  What [clearScene] disposes of.  In a scene with distinct children
    the disposal callback runs on the children that are no light and no
    helper, once each and in the order of the child list.  Every
    [dispose()] call is made on a handle owned by one of these children: no
    call is made for a preserved child (the geometry and material of the
    grid and axes helpers stay), and a scene of preserved children only
    leaves the trace as it was. *)
Theorem clearScene_disposes_of_removed_children_only
    (s : SceneManager) (sc : Scene) :
  scene s = Some sc -> distinctChildren sc ->
  exists s',
    clearScene s = Normal s'
    /\ releasesSince s s' = List.map releaseOf (removedChildren sc)
    /\ (forall r, In r (flat_map disposeCalls (releasesSince s s')) ->
          exists o, In o (sceneChildren sc) /\ isPreserved o = false /\ owns o r)
    /\ (forall p, In p (sceneChildren sc) -> isPreserved p = true ->
          ~ In (objectId p) (List.map releasedObject (releasesSince s s')))
    /\ (removedChildren sc = [] -> disposals s' = disposals s).
Proof.
  intros Hsc Hnd.
  destruct (clearScene_result s) as (s' & sc' & Hc & _ & _ & _ & _ & Htr).
  { intros sc0 H0. congruence. }
  rewrite Hsc in Htr.
  assert (Hrel : releasesSince s s' = List.map releaseOf (removedChildren sc)).
  { unfold releasesSince. rewrite Htr. by rewrite drop_app_length. }
  exists s'. split; [exact Hc|]. split; [exact Hrel|]. rewrite Hrel.
  split; [|split].
  - intros r Hr. apply in_flat_map in Hr as (rel & Hrel' & Hr).
    apply in_map_iff in Hrel' as (o & <- & Ho). simpl in Hr.
    unfold removedChildren in Ho. apply filter_In in Ho as [Ho Hp].
    exists o. split; [done|]. split; [by destruct (isPreserved o)|].
    by apply disposeOf_sound.
  - intros p Hp Hpres Hin. rewrite map_map in Hin. simpl in Hin.
    apply in_map_iff in Hin as (o & Hid & Ho).
    unfold removedChildren in Ho. apply filter_In in Ho as [Ho Hop].
    assert (o = p); [|subst; by rewrite Hpres in Hop].
    clear - Hnd Ho Hp Hid. unfold distinctChildren in Hnd.
    induction (sceneChildren sc) as [|x l IH]; [done|].
    simpl in Hnd. inversion Hnd as [|? ? Hx Hl]; subst.
    destruct Ho as [->|Ho], Hp as [->|Hp]; [done| | |by apply IH].
    + exfalso. apply Hx. rewrite Hid. by apply in_map.
    + exfalso. apply Hx. rewrite <- Hid. by apply in_map.
  - intros Hnone. rewrite Htr, Hnone. simpl. by rewrite app_nil_r.
Qed.

Lemma clearScene_disposes_of_removed_children_only_witness :
  scene viewportWithModel = Some modelScene
  /\ distinctChildren modelScene
  /\ exists s',
       clearScene viewportWithModel = Normal s'
       /\ releasesSince viewportWithModel s'
          = List.map releaseOf (removedChildren modelScene).
Proof.
  split; [reflexivity|]. split; [distinct_ids|].
  destruct (clearScene_disposes_of_removed_children_only
              viewportWithModel modelScene eq_refl) as (s' & Hc & Hrel & _).
  { distinct_ids. }
  exists s'. split; [exact Hc|exact Hrel].
Defined.

(** ** [addToScene] *)

Lemma detach_children (i : nat) (o : Object3D) :
  children (detach i o) = detachAll i (children o).
Proof.
  destruct o as [n c g m p ch]. simpl.
  induction ch as [|x l IH]; simpl; [done|]. by rewrite IH.
Qed.

(** Detaching an identity that occurs nowhere below changes nothing. *)
Lemma detach_absent (i : nat) (o : Object3D) :
  ~ In i (List.map objectId (descendants o)) -> detach i o = o.
Proof.
  induction o as [n c g m p ch IH] using Object3D_forall_ind.
  unfold descendants. simpl. intros Hnot. f_equal.
  induction IH as [|x l Hx Hl IHl]; simpl; [done|].
  simpl in Hnot. rewrite traverse_unfold in Hnot. simpl in Hnot.
  rewrite map_app in Hnot.
  destruct (Nat.eqb_spec (objectId x) i) as [E|E].
  - exfalso. apply Hnot. by left.
  - f_equal.
    + apply Hx. intros Hin. apply Hnot. right. apply in_or_app. by left.
    + apply IHl. intros Hin. apply Hnot. right. apply in_or_app. by right.
Qed.

Lemma detachAll_absent (i : nat) (l : list Object3D) :
  ~ In i (List.map objectId (flat_map traverse l)) -> detachAll i l = l.
Proof.
  induction l as [|x l IH]; simpl; [done|].
  rewrite traverse_unfold. simpl. rewrite map_app. intros Hnot.
  destruct (Nat.eqb_spec (objectId x) i) as [E|E].
  - exfalso. apply Hnot. by left.
  - f_equal.
    + apply detach_absent. intros Hin. apply Hnot. right. apply in_or_app. by left.
    + apply IH. intros Hin. apply Hnot. right. apply in_or_app. by right.
Qed.

Lemma removeChild_last (i : nat) (l : list Object3D) (o : Object3D) :
  objectId o = i -> ~ In i (List.map objectId l) ->
  removeChild i (l ++ [o]) = l.
Proof.
  intros <- Hnot. rewrite (removeChild_app_here l o []); [|done].
  by rewrite app_nil_r.
Qed.

(** X4.  Adding a content object and clearing the scene is a round trip.
    When the scene holds lights and helpers only, at least one, and the
    object is new to the graph, [addToScene] followed by [clearScene]
    returns normally and gives back the state from before, but for the
    trace, which shows the disposal of the object. *)
Theorem addToScene_then_clearScene_restores_the_scene
    (s : SceneManager) (sc : Scene) (object : Object3D) :
  scene s = Some sc ->
  sceneChildren sc <> [] ->
  (forall x, In x (sceneChildren sc) -> isPreserved x = true) ->
  isPreserved object = false ->
  ~ In (objectId object) (List.map objectId (sceneObjects sc)) ->
  addToScene object s >>= clearScene
  = Normal (set_disposals s (disposals s ++ [releaseOf object])).
Proof.
  intros Hsc Hne Hall Hcontent Hnew.
  unfold addToScene. rewrite Hsc. simpl.
  unfold clearScene, Object3D_add. simpl.
  rewrite (detachAll_absent _ _ Hnew).
  rewrite partition_as_filter, !List.filter_app. simpl. rewrite Hcontent. simpl.
  rewrite (filter_all_true _ _ Hall), (filter_all_false _ _ Hall). simpl.
  rewrite app_nil_r.
  change (disposeAndRemove _ object)
    with (Object3D_remove object
            (mkScene (background sc) (sceneChildren sc ++ [object])),
          disposals s ++ [releaseOf object]).
  unfold Object3D_remove. simpl.
  rewrite (removeChild_last (objectId object) (sceneChildren sc) object eq_refl).
  2:{ intros Hin. apply Hnew. apply in_map_iff in Hin as (y & <- & Hy).
      apply in_map. by apply In_flat_traverse_self. }
  destruct (sceneChildren sc) as [|k ks] eqn:Hk; [done|]. simpl.
  destruct s, sc. simpl in *. by subst.
Qed.

Lemma addToScene_then_clearScene_restores_the_scene_witness :
  addToScene (cubeMesh 200 origin) viewport >>= clearScene
  = Normal (set_disposals viewport
              (disposals viewport ++ [releaseOf (cubeMesh 200 origin)])).
Proof.
  apply (addToScene_then_clearScene_restores_the_scene viewport viewportScene).
  - reflexivity.
  - discriminate.
  - intros x Hx. vm_compute in Hx.
    repeat (destruct Hx as [<-|Hx]; [reflexivity|]). destruct Hx.
  - reflexivity.
  - vm_compute. lia.
Defined.

(** ** [focusOnModel] on a mesh without geometry *)

Lemma focusBounds_none (objects : list (option nat * Object3D))
    (cache : gmap nat Box3) (matrices : gmap nat Matrices) (box : Box3)
    (wo : option nat * Object3D) :
  In wo objects -> geometry wo.2 = None ->
  exists cache' matrices',
    focusBounds cache matrices box objects = (cache', matrices', None).
Proof.
  revert cache matrices box.
  induction objects as [|[w o] rest IH]; intros cache matrices box Hin Hg;
    [done|]. cbn [focusBounds].
  destruct (geometry o) as [g|] eqn:Hgo; [|by eexists _, _].
  destruct (expandByObject _ matrices EmptyBox3 _ o)
    as [[cache2 matrices2] objectBox].
  destruct Hin as [<-|Hin]; [simpl in Hg; congruence|]. by apply IH.
Qed.

(** X5.  A mesh without geometry among the objects to frame makes
    [focusOnModel] stop with a [TypeError] before the camera or the controls
    are written: scene, camera pose and controls are as before. *)
Theorem focusOnModel_raises_on_a_mesh_without_geometry
    (s : SceneManager) (sc : Scene) (wo : option nat * Object3D) :
  scene s = Some sc ->
  In wo (sceneTraverse sc) -> focusFilter wo.2 = true ->
  geometry wo.2 = None ->
  exists s',
    focusOnModel s = TypeError s'
    /\ scene s' = scene s /\ camera s' = camera s /\ controls s' = controls s.
Proof.
  intros Hsc Hin Hq Hg.
  assert (Hf : In wo (List.filter (fun wo => focusFilter wo.2) (sceneTraverse sc))).
  { apply filter_In. by split. }
  destruct (focusBounds_none _ (boundingBoxes s) (objectMatrices s) EmptyBox3
              wo Hf Hg) as (cache' & matrices' & Hfb).
  unfold focusOnModel. rewrite Hsc, Hfb.
  destruct (List.filter _ (sceneTraverse sc)) as [|x l]; [done|]. simpl.
  eexists. split; [reflexivity|]. simpl. by rewrite Hsc.
Qed.

Lemma focusOnModel_raises_on_a_mesh_without_geometry_witness :
  exists s',
    focusOnModel viewportWithBareMesh = TypeError s'
    /\ scene s' = scene viewportWithBareMesh
    /\ camera s' = camera viewportWithBareMesh
    /\ controls s' = controls viewportWithBareMesh.
Proof.
  apply (focusOnModel_raises_on_a_mesh_without_geometry
           viewportWithBareMesh bareMeshScene (None, bareMesh 210 (v3 1 0 0))).
  - reflexivity.
  - vm_compute. pick_member.
  - reflexivity.
  - reflexivity.
Defined.
